(** * oas-tools router: operation resolution and response interception

    A shallow embedding of [src/middleware/oas-router.js].  The router is
    JavaScript working on the parsed specification document, so the data are
    JSON trees ([value]) and every function of the file is transcribed with
    the coercions, property reads and exceptions that JavaScript performs
    at that place.  Functions that only compute return an [outcome]; the
    ones that log, load modules or send a response run in the state monad
    [M] over a [world].

    Conventions.  Strings are byte strings and numbers are integers, read
    as the double-precision number their literal denotes.  The
    built-ins the router calls on its data ([toString], [hasOwnProperty],
    [substring], [JSON.stringify], [JSON.parse]) are defined here on
    [value]; what the router gets from outside ([path.join], the files
    [require] finds, the schema validator) is a parameter of the [Router]
    section.  The properties come after the definitions: [processErr],
    the names and identifiers, the response interceptor, and module
    loading with resolution. *)

From Stdlib Require Import Ascii String ZArith List.
From stdpp Require Import base option list strings gmap pretty.

Open Scope Z_scope.

(** ** Completions *)

(** Exceptions the router can meet.  [LoadError] is what [require] raises
    for a module it cannot load, [ValidatorError] what the schema
    validator raises on a call it rejects. *)
Inductive exn : Type :=
| TypeError
| SyntaxError
| LoadError (what : string)
| ValidatorError.

(** The completion of an expression: a result, a thrown exception, or
    [Unmodelled] where JavaScript leaves the fragment that is embedded here
    (inherited prototype members read as data, numbers that are not
    integers, characters beyond ASCII written as escapes).  Nothing is
    assumed about what JavaScript does there. *)
Inductive outcome (A : Type) : Type :=
| Ok (a : A)
| Throw (e : exn)
| Unmodelled.
Arguments Ok {A} a.
Arguments Throw {A} e.
Arguments Unmodelled {A}.

#[global] Instance outcome_ret : MRet outcome := fun A a => Ok a.
#[global] Instance outcome_bind : MBind outcome := fun A B f o =>
  match o with
  | Ok a => f a
  | Throw e => Throw e
  | Unmodelled => Unmodelled
  end.

(** ** JSON values *)

(** The specification document, the payloads and what [JSON.parse]
    returns.  Numbers are the integers (status codes, lengths, integer
    payload fields); [VNum n] is the number that the literal [n] denotes.
    An object lists its own properties in enumeration order. *)
#[warnings="-register-all"]
Inductive value : Type :=
| VUndefined
| VNull
| VBool (b : bool)
| VNum (n : Z)
| VStr (s : string)
| VArr (items : list value)
| VObj (props : list (string * value)).

Definition dquote : ascii := "034"%char.
Definition backslash : ascii := "092"%char.

Fixpoint own (props : list (string * value)) (k : string) : option value :=
  match props with
  | [] => None
  | (k', v) :: rest => if String.eqb k' k then Some v else own rest k
  end.

(** Names every ordinary object inherits from [Object.prototype]. *)
Definition object_prototype_names : list string :=
  [ "constructor"; "hasOwnProperty"; "isPrototypeOf"; "propertyIsEnumerable";
    "toLocaleString"; "toString"; "valueOf"; "__proto__";
    "__defineGetter__"; "__defineSetter__"; "__lookupGetter__";
    "__lookupSetter__" ].

Definition inherited (k : string) : bool :=
  existsb (String.eqb k) object_prototype_names.

(** The index an array-index key denotes: [k] is the decimal spelling of a
    position below [n]. *)
Definition index_of_key (n : nat) (k : string) : option nat :=
  find (fun i => String.eqb (pretty (Z.of_nat i)) k) (seq 0 n).

Definition char_at (s : string) (i : nat) : value :=
  match String.get i s with
  | Some c => VStr (String c EmptyString)
  | None => VUndefined
  end.

(** [v[k]] and [v.k]. *)
Definition get_prop (v : value) (k : string) : outcome value :=
  match v with
  | VUndefined | VNull => Throw TypeError
  | VObj props =>
      match own props k with
      | Some x => Ok x
      | None => if inherited k then Unmodelled else Ok VUndefined
      end
  | VArr items =>
      if String.eqb k "length" then Ok (VNum (Z.of_nat (length items)))
      else match index_of_key (length items) k with
           | Some i => Ok (nth i items VUndefined)
           | None => Unmodelled
           end
  | VStr s =>
      if String.eqb k "length" then Ok (VNum (Z.of_nat (String.length s)))
      else match index_of_key (String.length s) k with
           | Some i => Ok (char_at s i)
           | None => Unmodelled
           end
  | VBool _ | VNum _ => Unmodelled
  end.

(** [v.hasOwnProperty(k)].  A JSON value is never callable, so an object
    with an own property of that name makes the call a [TypeError]. *)
Definition hasOwnProperty (v : value) (k : string) : outcome bool :=
  match v with
  | VUndefined | VNull => Throw TypeError
  | VObj props =>
      match own props "hasOwnProperty" with
      | Some _ => Throw TypeError
      | None => Ok (bool_decide (is_Some (own props k)))
      end
  | VArr items =>
      Ok (String.eqb k "length" || bool_decide (is_Some (index_of_key (length items) k)))
  | VStr s =>
      Ok (String.eqb k "length" || bool_decide (is_Some (index_of_key (String.length s) k)))
  | VBool _ | VNum _ => Ok false
  end.

(** [v == undefined]: loose equality holds for [undefined] and [null]. *)
Definition loosely_undefined (v : value) : bool :=
  match v with
  | VUndefined | VNull => true
  | _ => false
  end.

(** ** Numbers *)

(** JavaScript numbers are double-precision floats.  Every integer below
    2^53 in magnitude is one; a larger integer literal denotes the nearest
    float, ties going to the even significand, and [Infinity] when that
    reaches 2^1024.  [nearest_double m] is that float for [0 ≤ m]. *)
Definition nearest_double (m : Z) : Z :=
  if m <? 2 ^ 53 then m
  else
    let ulp := 2 ^ (Z.log2 m - 52) in
    let q := m / ulp in
    let r := m mod ulp in
    if (ulp <? 2 * r) || ((ulp =? 2 * r) && Z.odd q) then (q + 1) * ulp else q * ulp.

Definition infinite (x : Z) : bool := 2 ^ 1024 <=? x.

(** The decimals with [k] significant digits next to [x], when they
    denote [x]: the one closer to [x] is taken. *)
Definition candidate (x : Z) (k : nat) : option Z :=
  let p := 10 ^ (Z.of_nat (String.length (pretty x)) - Z.of_nat k) in
  let lo := x / p * p in
  let hi := lo + p in
  match bool_decide (nearest_double lo = x), bool_decide (nearest_double hi = x) with
  | true, true => Some (if x - lo <=? hi - x then lo else hi)
  | true, false => Some lo
  | false, true => Some hi
  | false, false => None
  end.

Fixpoint first_candidate (x : Z) (ks : list nat) : Z :=
  match ks with
  | [] => x
  | k :: ks' =>
      match candidate x k with
      | Some c => c
      | None => first_candidate x ks'
      end
  end.

(** The decimal with the fewest significant digits that denotes the
    float [x]. *)
Definition shortest (x : Z) : Z :=
  first_candidate x (seq 1 (String.length (pretty x))).

Fixpoint strip_zeros (t : string) : string :=
  match t with
  | EmptyString => EmptyString
  | String c rest =>
      match strip_zeros rest with
      | EmptyString => if Ascii.eqb c "0" then EmptyString else String c EmptyString
      | r => String c r
      end
  end.

(** The exponent form of a positive decimal: the first significant digit,
    the others behind a point, and the power of ten. *)
Definition exponent_form (c : Z) : string :=
  let t := pretty c in
  let e := "e+" +:+ pretty (Z.of_nat (String.length t) - 1) in
  match strip_zeros t with
  | String d EmptyString => String d e
  | String d ds => String d ("." +:+ ds +:+ e)
  | EmptyString => t
  end.

(** [Number.prototype.toString] and the [ToString] of a number: decimal
    up to 21 digits, the exponent form beyond. *)
Definition Number_toString (n : Z) : string :=
  let x := nearest_double (Z.abs n) in
  if x <? 2 ^ 53 then pretty n
  else
    (if n <? 0 then "-" else EmptyString)
    +:+ (if infinite x then "Infinity"
         else
           let c := shortest x in
           if (21 <? String.length (pretty c))%nat then exponent_form c else pretty c).

(** The JSON text of a number: [JSON.stringify] writes [null] for an
    infinite one. *)
Definition Number_json (n : Z) : string :=
  if infinite (nearest_double (Z.abs n)) then "null" else Number_toString n.

(** ** String coercions *)

Definition join (sep : string) (parts : list string) : string :=
  String.concat sep parts.

(** The [ToString] coercion that [+] with a string applies.  An array
    joins its elements with commas, [null] and [undefined] elements giving
    nothing; an object gives the [Object.prototype.toString] text unless an
    own [toString] property (not callable) hides it. *)
Fixpoint to_string (v : value) : outcome string :=
  match v with
  | VUndefined => Ok "undefined"
  | VNull => Ok "null"
  | VBool b => Ok (if b then "true" else "false")
  | VNum n => Ok (Number_toString n)
  | VStr s => Ok s
  | VArr items =>
      (fix elems (l : list value) : outcome (list string) :=
         match l with
         | [] => Ok []
         | x :: rest =>
             match (if loosely_undefined x then Ok "" else to_string x) with
             | Ok s => match elems rest with
                       | Ok ss => Ok (s :: ss)
                       | Throw e => Throw e
                       | Unmodelled => Unmodelled
                       end
             | Throw e => Throw e
             | Unmodelled => Unmodelled
             end
         end) items ≫= fun ss => Ok (join "," ss)
  | VObj props =>
      match own props "toString" with
      | Some _ => Throw TypeError
      | None => Ok "[object Object]"
      end
  end.

(** [v.toString()], the method call. *)
Definition call_toString (v : value) : outcome string :=
  match v with
  | VUndefined | VNull => Throw TypeError
  | _ => to_string v
  end.

(** [s.substring(start, end)] on integer positions: both are clamped to the
    string and swapped when out of order. *)
Definition substring (s : string) (start stop : Z) : string :=
  let len := Z.of_nat (String.length s) in
  let a := Z.min (Z.max start 0) len in
  let b := Z.min (Z.max stop 0) len in
  let from := Z.min a b in
  let to := Z.max a b in
  String.substring (Z.to_nat from) (Z.to_nat (to - from)) s.

(** [s.substring(start, e)] with [e] a value: [undefined] means the end of
    the string. *)
Definition substring_to (s : string) (start : Z) (e : value) : outcome string :=
  match e with
  | VUndefined => Ok (substring s start (Z.of_nat (String.length s)))
  | VNum n => Ok (substring s start n)
  | _ => Unmodelled
  end.

(** ** The validator's errors and [processErr] *)

Record schema_error : Type := SchemaError {
  code : string;
  message : string;
  path : string
}.

(** The loop of [processErr]: [errors = errors + ". " + err[i].message]. *)
Fixpoint processErr_loop (errors : string) (err : list schema_error) : string :=
  match err with
  | [] => errors
  | e :: rest => processErr_loop (errors +:+ ". " +:+ message e) rest
  end.

Definition processErr (err : list schema_error) : string :=
  let errors := processErr_loop "" err in
  substring errors 2 (Z.of_nat (String.length errors)).

(** ** Names derived from the request *)

Definition nameOfPath (reqPath : value) : outcome string :=
  s ← call_toString reqPath;
  len ← get_prop reqPath "length";
  substring_to s 1 len.

Definition generateName (url : value) : outcome string :=
  n ← nameOfPath url;
  Ok (n +:+ "Controllers").

Definition nameMethod (method : value) : outcome string :=
  m ← call_toString method;
  Ok (if String.eqb m "GET" then "list"
      else if String.eqb m "POST" then "create"
      else if String.eqb m "PUT" then "update"
      else "delete").

(** [spec.paths[url][method]], the Operation Descriptor. *)
Definition operation (spec : value) (url method : string) : outcome value :=
  paths ← get_prop spec "paths";
  item ← get_prop paths url;
  get_prop item method.

Definition generateOpId (spec : value) (url method : string) : outcome string :=
  d ← operation spec url method;
  explicit ← hasOwnProperty d "operationId";
  if explicit : bool then
    d ← operation spec url method;
    id ← get_prop d "operationId";
    call_toString id
  else
    d ← operation spec url method;
    verb ← nameMethod d;
    d ← operation spec url method;
    name ← nameOfPath d;
    Ok (verb +:+ name).

(** ** [JSON.stringify] and [JSON.parse] *)

Definition hex_digit (n : N) : ascii :=
  ascii_of_N (if (n <? 10)%N then 48 + n else 87 + n).

(** The escape [JSON.stringify] writes for one character of a string. *)
Definition escape_char (c : ascii) : string :=
  let n := N_of_ascii c in
  if Ascii.eqb c dquote then String backslash (String dquote "")
  else if Ascii.eqb c backslash then String backslash (String backslash "")
  else if (n =? 8)%N then String backslash "b"
  else if (n =? 9)%N then String backslash "t"
  else if (n =? 10)%N then String backslash "n"
  else if (n =? 12)%N then String backslash "f"
  else if (n =? 13)%N then String backslash "r"
  else if (n <? 32)%N then
    String backslash ("u00" +:+ String (hex_digit (n / 16)) (String (hex_digit (n mod 16)) ""))
  else String c "".

Fixpoint escape (s : string) : string :=
  match s with
  | EmptyString => ""
  | String c rest => escape_char c +:+ escape rest
  end.

Definition quote (s : string) : string :=
  String dquote (escape s) +:+ String dquote "".

(** The JSON text of a value; [None] where [JSON.stringify] gives
    [undefined].  Inside an array [undefined] is written [null], inside an
    object the property is left out. *)
Fixpoint serialize (v : value) : option string :=
  match v with
  | VUndefined => None
  | VNull => Some "null"
  | VBool b => Some (if b then "true" else "false")
  | VNum n => Some (Number_json n)
  | VStr s => Some (quote s)
  | VArr items =>
      Some ("[" +:+ join "," (map (fun x => default "null" (serialize x)) items) +:+ "]")
  | VObj props =>
      Some ("{" +:+ join ","
              (omap (fun p => match serialize (snd p) with
                              | Some t => Some (quote (fst p) +:+ ":" +:+ t)
                              | None => None
                              end) props) +:+ "}")
  end.

Definition JSON_stringify (v : value) : value :=
  match serialize v with
  | Some s => VStr s
  | None => VUndefined
  end.

Definition is_ws (c : ascii) : bool :=
  let n := N_of_ascii c in
  ((n =? 32) || (n =? 9) || (n =? 10) || (n =? 13))%N.

Fixpoint skip_ws (s : string) : string :=
  match s with
  | String c rest => if is_ws c then skip_ws rest else s
  | EmptyString => s
  end.

Definition digit_value (c : ascii) : option Z :=
  let n := N_of_ascii c in
  if ((48 <=? n) && (n <=? 57))%N then Some (Z.of_N n - 48) else None.

Definition hex_value (c : ascii) : option N :=
  let n := N_of_ascii c in
  if ((48 <=? n) && (n <=? 57))%N then Some (n - 48)%N
  else if ((97 <=? n) && (n <=? 102))%N then Some (n - 87)%N
  else if ((65 <=? n) && (n <=? 70))%N then Some (n - 55)%N
  else None.

(** The digits at the head of [s], accumulated onto [acc]. *)
Fixpoint parse_digits (acc : Z) (s : string) : Z * string :=
  match s with
  | String c rest =>
      match digit_value c with
      | Some d => parse_digits (10 * acc + d) rest
      | None => (acc, s)
      end
  | EmptyString => (acc, s)
  end.

(** The digits of a fraction, accumulated onto the significand [mant]
    with their count. *)
Fixpoint parse_fraction (mant places : Z) (s : string) : Z * Z * string :=
  match s with
  | String c rest =>
      match digit_value c with
      | Some d => parse_fraction (10 * mant + d) (places + 1) rest
      | None => (mant, places, s)
      end
  | EmptyString => (mant, places, s)
  end.

(** The number [mant * 10 ^ (exponent - places)], when it is an integer:
    the text denotes the float nearest to it. *)
Definition integral (sign mant places exponent : Z) (rest : string)
  : outcome (value * string) :=
  let shift := exponent - places in
  if 0 <=? shift then Ok (VNum (sign * nearest_double (mant * 10 ^ shift)), rest)
  else if mant mod 10 ^ (- shift) =? 0
       then Ok (VNum (sign * nearest_double (mant / 10 ^ (- shift))), rest)
  else Unmodelled.

Definition leads_digit (s : string) : bool :=
  match s with
  | String c _ => bool_decide (is_Some (digit_value c))
  | EmptyString => false
  end.

(** The exponent part, if there is one: [e] or [E], a sign, digits. *)
Definition parse_exponent (sign mant places : Z) (s : string)
  : outcome (value * string) :=
  match s with
  | String c rest =>
      if Ascii.eqb c "e" || Ascii.eqb c "E" then
        let '(esign, rest) :=
          match rest with
          | String x r =>
              if Ascii.eqb x "+" then (1, r)
              else if Ascii.eqb x "-" then (-1, r)
              else (1, rest)
          | EmptyString => (1, rest)
          end in
        if leads_digit rest then
          let '(e, rest') := parse_digits 0 rest in
          integral sign mant places (esign * e) rest'
        else Throw SyntaxError
      else integral sign mant places 0 s
  | EmptyString => integral sign mant places 0 s
  end.

(** What follows the integer part [int] of a number: a fraction, an
    exponent, or nothing. *)
Definition number_tail (sign int : Z) (s : string) : outcome (value * string) :=
  match s with
  | String c rest =>
      if Ascii.eqb c "." then
        if leads_digit rest then
          let '(mant, places, rest') := parse_fraction int 0 rest in
          parse_exponent sign mant places rest'
        else Throw SyntaxError
      else parse_exponent sign int 0 s
  | EmptyString => parse_exponent sign int 0 s
  end.

Definition parse_unsigned (sign : Z) (s : string) : outcome (value * string) :=
  match s with
  | String c rest =>
      match digit_value c with
      | Some 0 => number_tail sign 0 rest
      | Some d => let '(n, rest') := parse_digits d rest in number_tail sign n rest'
      | None => Throw SyntaxError
      end
  | EmptyString => Throw SyntaxError
  end.

(** The characters of a string literal after its opening quote, up to the
    closing one.  A [\u] escape above the ASCII range is outside the byte
    strings used here. *)
Fixpoint parse_chars (s : string) : outcome (string * string) :=
  match s with
  | EmptyString => Throw SyntaxError
  | String c rest =>
      if Ascii.eqb c dquote then Ok ("", rest)
      else if Ascii.eqb c backslash then
        match rest with
        | String e rest' =>
            let simple (x : ascii) :=
              '(t, r) ← parse_chars rest'; Ok (String x t, r) in
            if Ascii.eqb e dquote then simple dquote
            else if Ascii.eqb e backslash then simple backslash
            else if Ascii.eqb e "/" then simple "/"%char
            else if Ascii.eqb e "b" then simple "008"%char
            else if Ascii.eqb e "f" then simple "012"%char
            else if Ascii.eqb e "n" then simple "010"%char
            else if Ascii.eqb e "r" then simple "013"%char
            else if Ascii.eqb e "t" then simple "009"%char
            else if Ascii.eqb e "u" then
              match rest' with
              | String h1 (String h2 (String h3 (String h4 rest''))) =>
                  match hex_value h1, hex_value h2, hex_value h3, hex_value h4 with
                  | Some a, Some b, Some c', Some d =>
                      let n := (((a * 16 + b) * 16 + c') * 16 + d)%N in
                      if (n <? 128)%N then
                        '(t, r) ← parse_chars rest''; Ok (String (ascii_of_N n) t, r)
                      else Unmodelled
                  | _, _, _, _ => Throw SyntaxError
                  end
              | _ => Throw SyntaxError
              end
            else Throw SyntaxError
        | EmptyString => Throw SyntaxError
        end
      else if (N_of_ascii c <? 32)%N then Throw SyntaxError
      else '(t, r) ← parse_chars rest; Ok (String c t, r)
  end.

(** Whether [k] is an array index, the keys an object enumerates first and
    in ascending order. *)
Definition array_index (k : string) : option Z :=
  match k with
  | String c _ =>
      match digit_value c with
      | Some _ =>
          let '(n, rest) := parse_digits 0 k in
          if String.eqb (pretty n) k && (n <? 4294967295) then Some n else None
      | None => None
      end
  | EmptyString => None
  end.

Fixpoint replace_prop (props : list (string * value)) (k : string) (v : value)
  : list (string * value) :=
  match props with
  | [] => []
  | (k', v') :: rest =>
      if String.eqb k' k then (k, v) :: rest else (k', v') :: replace_prop rest k v
  end.

Fixpoint insert_index (props : list (string * value)) (i : Z) (k : string) (v : value)
  : list (string * value) :=
  match props with
  | [] => [(k, v)]
  | (k', v') :: rest =>
      match array_index k' with
      | Some j => if i <? j then (k, v) :: props else (k', v') :: insert_index rest i k v
      | None => (k, v) :: props
      end
  end.

(** Defining property [k] on an object under construction: a repeated key
    keeps its place and takes the new value. *)
Definition define_prop (props : list (string * value)) (k : string) (v : value)
  : list (string * value) :=
  match own props k with
  | Some _ => replace_prop props k v
  | None =>
      match array_index k with
      | Some i => insert_index props i k v
      | None => props ++ [(k, v)]
      end
  end.

(** What is left of [s] behind its prefix [p]. *)
Fixpoint starts_with (p s : string) : option string :=
  match p with
  | EmptyString => Some s
  | String a p' =>
      match s with
      | String b s' => if Ascii.eqb a b then starts_with p' s' else None
      | EmptyString => None
      end
  end.

(** The recursive-descent parser, by fuel: [parse_value] reads one value,
    [parse_elements] the rest of an array after an element, [parse_members]
    the rest of an object after a member. *)
Fixpoint parse_value (fuel : nat) (s : string) : outcome (value * string) :=
  match fuel with
  | O => Unmodelled
  | S fuel' =>
      match skip_ws s with
      | EmptyString => Throw SyntaxError
      | String c rest =>
          if Ascii.eqb c dquote then
            '(t, r) ← parse_chars rest; Ok (VStr t, r)
          else if Ascii.eqb c "[" then
            match skip_ws rest with
            | String c' rest' =>
                if Ascii.eqb c' "]" then Ok (VArr [], rest')
                else '(x, r) ← parse_value fuel' rest; parse_elements fuel' [x] r
            | EmptyString => Throw SyntaxError
            end
          else if Ascii.eqb c "{" then
            match skip_ws rest with
            | String c' rest' =>
                if Ascii.eqb c' "}" then Ok (VObj [], rest')
                else parse_member fuel' [] rest
            | EmptyString => Throw SyntaxError
            end
          else if Ascii.eqb c "-" then parse_unsigned (-1) rest
          else if bool_decide (is_Some (digit_value c)) then parse_unsigned 1 (String c rest)
          else match starts_with "true" (String c rest) with
               | Some r => Ok (VBool true, r)
               | None =>
          match starts_with "false" (String c rest) with
               | Some r => Ok (VBool false, r)
               | None =>
          match starts_with "null" (String c rest) with
               | Some r => Ok (VNull, r)
               | None => Throw SyntaxError
               end end end
      end
  end
with parse_elements (fuel : nat) (acc : list value) (s : string)
  : outcome (value * string) :=
  match fuel with
  | O => Unmodelled
  | S fuel' =>
      match skip_ws s with
      | String c rest =>
          if Ascii.eqb c "]" then Ok (VArr acc, rest)
          else if Ascii.eqb c "," then
            '(x, r) ← parse_value fuel' rest; parse_elements fuel' (acc ++ [x]) r
          else Throw SyntaxError
      | EmptyString => Throw SyntaxError
      end
  end
with parse_member (fuel : nat) (acc : list (string * value)) (s : string)
  : outcome (value * string) :=
  match fuel with
  | O => Unmodelled
  | S fuel' =>
      match skip_ws s with
      | String c rest =>
          if Ascii.eqb c dquote then
            '(k, r) ← parse_chars rest;
            match skip_ws r with
            | String colon r' =>
                if Ascii.eqb colon ":" then
                  '(x, r'') ← parse_value fuel' r';
                  let acc' := define_prop acc k x in
                  match skip_ws r'' with
                  | String d r3 =>
                      if Ascii.eqb d "}" then Ok (VObj acc', r3)
                      else if Ascii.eqb d "," then parse_member fuel' acc' r3
                      else Throw SyntaxError
                  | EmptyString => Throw SyntaxError
                  end
                else Throw SyntaxError
            | EmptyString => Throw SyntaxError
            end
          else Throw SyntaxError
      | EmptyString => Throw SyntaxError
      end
  end.

(** [JSON.parse(text)]: the argument is coerced to a string, one value is
    read and nothing but blanks may follow it. *)
Definition JSON_parse (text : value) : outcome value :=
  s ← to_string text;
  '(x, rest) ← parse_value (2 + 2 * String.length s) s;
  match skip_ws rest with
  | EmptyString => Ok x
  | String _ _ => Throw SyntaxError
  end.

(** ** The response contract of a status code *)

(** [spec.paths[url][method].responses[code]]: the status code is turned
    into its property key. *)
Definition responseCodeSection (spec : value) (url method : string) (code : Z)
  : outcome value :=
  d ← operation spec url method;
  responses ← get_prop d "responses";
  get_prop responses (Number_toString code).

(** [responseCodeSection.content['application/json'].schema]. *)
Definition validSchema (responseCodeSection : value) : outcome value :=
  content ← get_prop responseCodeSection "content";
  json ← get_prop content "application/json";
  get_prop json "schema".

(** ** The world the router acts on *)

(** What [require] evaluates to, as far as the router looks at it: a module
    may export [undefined], [null], or an object of named operations. *)
Inductive module_value : Type :=
| ModUndefined
| ModNull
| ModExports (operations : list string).

Definition module_undefined (m : module_value) : bool :=
  match m with
  | ModUndefined | ModNull => true
  | ModExports _ => false
  end.

(** [log] holds the arguments of [logger.info] in order, [statusCode] is
    [res.statusCode], [delivered] the calls the transport's own [send]
    received (status and body), [loaded] the module cache of [require].
    [pending] holds the calls of the validation callback that the validator
    has put off to the next tick of the event loop: the errors each will
    receive and the payload it holds. *)
Record world : Type := World {
  log : list value;
  statusCode : Z;
  delivered : list (Z * value);
  loaded : gmap string module_value;
  pending : list (option (list schema_error) * value)
}.

Definition M (A : Type) : Type := world → outcome A * world.

#[global] Instance M_ret : MRet M := fun A a w => (Ok a, w).
#[global] Instance M_bind : MBind M := fun A B f m w =>
  match m w with
  | (Ok a, w') => f a w'
  | (Throw e, w') => (Throw e, w')
  | (Unmodelled, w') => (Unmodelled, w')
  end.

Definition lift {A : Type} (o : outcome A) : M A := fun w => (o, w).

Definition logger_info (entry : value) : M unit := fun w =>
  (Ok (), World (log w ++ [entry]) (statusCode w) (delivered w) (loaded w) (pending w)).

Definition res_statusCode : M Z := fun w => (Ok (statusCode w), w).

(** The transport's [send], called as [oldSend.apply(res, arguments)]: the
    body is the first argument. *)
Definition oldSend (arguments : list value) : M unit := fun w =>
  (Ok (), World (log w) (statusCode w)
             (delivered w ++ [(statusCode w, nth 0 arguments VUndefined)]) (loaded w)
             (pending w)).

(** [s.toLowerCase()] on the ASCII letters. *)
Definition lower_char (c : ascii) : ascii :=
  let n := N_of_ascii c in
  if ((65 <=? n) && (n <=? 90))%N then ascii_of_N (n + 32) else c.

Fixpoint toLowerCase (s : string) : string :=
  match s with
  | EmptyString => ""
  | String c rest => String (lower_char c) (toLowerCase rest)
  end.

(** The callback [checkResponse] hands to the validator, over the payload
    [data] it holds: [function(err, valid) { if (err) ... }]. *)
Definition validation_callback (err : option (list schema_error)) (data : value)
  : M unit :=
  match err with
  | Some err =>
      logger_info (VStr ("WARNING: wrong data in the response. " +:+ processErr err));;
      logger_info data
  | None => mret ()
  end.

Fixpoint run_callbacks (calls : list (option (list schema_error) * value)) : M unit :=
  match calls with
  | [] => mret ()
  | (err, data) :: rest => validation_callback err data;; run_callbacks rest
  end.

(** The next tick of the event loop: the callbacks put off so far are
    called in order. *)
Definition next_tick : M unit := fun w =>
  run_callbacks (pending w)
    (World (log w) (statusCode w) (delivered w) (loaded w) []).

Section Router.

(** The collaborators: [path.join], what loading a file from the
    controllers directory gives, and the verdict [validator.validate]
    reaches on a payload and a schema: the list of errors or nothing. *)
Variable path_join : string → string → string.
Variable disk : string → outcome module_value.
Variable validate : value → value → outcome (option (list schema_error)).

(** [require(file)]: a module loaded once is answered from the cache; a
    failed load caches nothing. *)
Definition require (file : string) : M module_value := fun w =>
  match loaded w !! file with
  | Some m => (Ok m, w)
  | None =>
      match disk file with
      | Ok m =>
          (Ok m, World (log w) (statusCode w) (delivered w) (<[file := m]> (loaded w))
                   (pending w))
      | Throw e => (Throw e, w)
      | Unmodelled => (Unmodelled, w)
      end
  end.

Definition existsController (locationOfControllers controllerName : string) : M bool :=
  load ← require (path_join locationOfControllers controllerName);
  if module_undefined load then mret false else mret true.

(** [validator.validate(data, schema, callback)] with the callback of
    [checkResponse]: the verdict is reached during the call, which may
    throw; the callback receives it on the next tick. *)
Definition validator_validate (data schema : value) : M unit := fun w =>
  match validate data schema with
  | Ok err =>
      (Ok (), World (log w) (statusCode w) (delivered w) (loaded w)
                (pending w ++ [(err, data)]))
  | Throw e => (Throw e, w)
  | Unmodelled => (Unmodelled, w)
  end.

Definition checkResponse (code : Z) (spec : value) (method url : string)
    (data : list value) : M unit :=
  let data := nth 0 data VUndefined in
  logger_info (VStr "Processing at checkResponse:");;
  logger_info (VStr ("  -code: " +:+ Number_toString code));;
  line ← lift (to_string spec);
  logger_info (VStr ("  -spec: " +:+ line));;
  logger_info (VStr ("  -method: " +:+ method));;
  logger_info (VStr ("  -url: " +:+ url));;
  line ← lift (to_string data);
  logger_info (VStr ("  -data: " +:+ line));;
  responseCodeSection ← lift (responseCodeSection spec url method code);
  if loosely_undefined responseCodeSection then
    logger_info (VStr "WARNING: wrong response code");;
    logger_info (VNum code)
  else
    content ← lift (hasOwnProperty responseCodeSection "content");
    if content : bool then
      validSchema ← lift (validSchema responseCodeSection);
      logger_info (VStr "schema to use for validation");;
      logger_info validSchema;;
      data ← lift (JSON_parse data);
      validator_validate data validSchema
    else mret ().

(** The controller name [OASRouter] settles on. *)
Definition controllerName (controllers : string) (spec : value) (url method : string)
  : M value :=
  d ← lift (operation spec url method);
  override ← lift (hasOwnProperty d "x-router-controller");
  if override : bool then
    d ← lift (operation spec url method);
    lift (get_prop d "x-router-controller")
  else
    name ← lift (generateName (VStr url));
    found ← existsController controllers name;
    if found : bool then
      name ← lift (generateName (VStr url));
      mret (VStr name)
    else mret (VStr "Defualt").

(** Resolution, the first half of [OASRouter]: the method is lowered, the
    controller name chosen, then the operation identifier. *)
Definition resolve (controllers : string) (spec : value) (requestedUlr req_method : string)
  : M (value * string) :=
  let url := requestedUlr in
  let method := toLowerCase req_method in
  name ← controllerName controllers spec url method;
  opID ← lift (generateOpId spec url method);
  mret (name, opID).

(** The replacement [res.send] that [OASRouter] installs. *)
Definition res_send (spec : value) (method url : string) (data : value) : M unit :=
  let arguments := [JSON_stringify data] in
  code ← res_statusCode;
  checkResponse code spec method url arguments;;
  oldSend arguments.

End Router.

(** ** What the specification text says the synthesized identifier is *)

(** The verb table on the request method and the requested path without
    its leading separator, as the prose states them; compared with
    [generateOpId] below. *)
Definition stated_verb (req_method : string) : string :=
  if String.eqb req_method "GET" then "list"
  else if String.eqb req_method "POST" then "create"
  else if String.eqb req_method "PUT" then "update"
  else "delete".

Definition stated_opId (req_method url : string) : string :=
  stated_verb req_method +:+ String.substring 1 (String.length url - 1) url.

(** ** A pet store to run the router on *)

Definition pet_schema : value :=
  VObj [("type", VStr "array");
        ("items", VObj [("type", VStr "object");
                        ("required", VArr [VStr "id"; VStr "name"])])].

Definition section_200_props : list (string * value) :=
  [("description", VStr "A list of pets");
   ("content", VObj [("application/json", VObj [("schema", pet_schema)])])].

Definition section_400_props : list (string * value) :=
  [("description", VStr "Bad request")].

Definition text_content_props : list (string * value) :=
  [("text/plain", VObj [("schema", VObj [("type", VStr "string")])])].

Definition section_404_props : list (string * value) :=
  [("description", VStr "Not found"); ("content", VObj text_content_props)].

Definition pets_responses : list (string * value) :=
  [("200", VObj section_200_props);
   ("400", VObj section_400_props);
   ("404", VObj section_404_props)].

Definition pets_get_props : list (string * value) :=
  [("responses", VObj pets_responses)].

Definition pets_get : value := VObj pets_get_props.

Definition pets_post_props : list (string * value) :=
  [("operationId", VStr "addPet");
   ("x-router-controller", VStr "storeController");
   ("responses", VObj [("201", VObj [("description", VStr "Created")])])].

Definition pets_post : value := VObj pets_post_props.

Definition petstore : value :=
  VObj [("openapi", VStr "3.0.0");
        ("paths", VObj [("/pets", VObj [("get", pets_get); ("post", pets_post)]);
                        ("/toys", VObj [("get", pets_get)]);
                        ("/bones", VObj [("get", pets_get)]);
                        ("/owners", VObj [("get", pets_get)])])].

Definition controllers_root : string := "/app/controllers".

Definition join_paths (a b : string) : string := a +:+ "/" +:+ b.

(** A controllers directory: [petsControllers] exports operations,
    [toysControllers] exports [undefined], [bonesControllers] exports
    [null], and no other file exists. *)
Definition pet_disk (file : string) : outcome module_value :=
  if String.eqb file "/app/controllers/petsControllers"
  then Ok (ModExports ["listpets"; "createpets"])
  else if String.eqb file "/app/controllers/toysControllers" then Ok ModUndefined
  else if String.eqb file "/app/controllers/bonesControllers" then Ok ModNull
  else Throw (LoadError file).

Definition json_type (v : value) : string :=
  match v with
  | VUndefined => "undefined"
  | VNull => "null"
  | VBool _ => "boolean"
  | VNum _ => "integer"
  | VStr _ => "string"
  | VArr _ => "array"
  | VObj _ => "object"
  end.

(** A validator that checks the [type] keyword of the schema against the
    value, and rejects a call without a schema object. *)
Definition type_validator (data schema : value) : outcome (option (list schema_error)) :=
  match schema with
  | VObj props =>
      match own props "type" with
      | Some (VStr t) =>
          if String.eqb t (json_type data) then Ok None
          else Ok (Some [SchemaError "INVALID_TYPE"
                           ("Expected type " +:+ t +:+ " but found type " +:+ json_type data)
                           "#/"])
      | _ => Ok None
      end
  | _ => Throw ValidatorError
  end.

Definition fresh (status : Z) : world := World [] status [] ∅ [].

Definition pig : value :=
  VArr [VObj [("id", VNum 10); ("name", VStr "Pig"); ("tag", VStr "Looking for mud")]].

(** ** Dispatch by name *)

(** [s.split(".")]: the pieces between the dots, at least one. *)
Fixpoint split_dots (s : string) : list string :=
  match s with
  | EmptyString => [""]
  | String c rest =>
      if Ascii.eqb c "." then "" :: split_dots rest
      else match split_dots rest with
           | piece :: pieces => String c piece :: pieces
           | [] => [String c ""]
           end
  end.

(** A name without a dot. *)
Fixpoint dotless (s : string) : bool :=
  match s with
  | EmptyString => true
  | String c rest => negb (Ascii.eqb c ".") && dotless rest
  end.

(** A controller function, called as [f(req, res, next)]: what it does is
    a computation over the world, given the [send] of the response object
    it is handed. *)
Definition handler : Type := (value → M unit) → M unit.

(** What [executeFunctionByName] walks through: plain data, a function, or
    an object whose members may be functions and further objects. *)
#[warnings="-register-all"]
Inductive member : Type :=
| MData (v : value)
| MFunction (h : handler)
| MObject (members : list (string * member)).

Fixpoint own_member (members : list (string * member)) (k : string) : option member :=
  match members with
  | [] => None
  | (k', m) :: rest => if String.eqb k' k then Some m else own_member rest k
  end.

(** [context[k]].  The properties of a function object are not
    embedded. *)
Definition get_member (context : member) (k : string) : outcome member :=
  match context with
  | MData v => v' ← get_prop v k; Ok (MData v')
  | MFunction _ => Unmodelled
  | MObject members =>
      match own_member members k with
      | Some m => Ok m
      | None => if inherited k then Unmodelled else Ok (MData VUndefined)
      end
  end.

(** The loop [context = context[namespaces[i]]]. *)
Fixpoint descend (namespaces : list string) (context : member) : outcome member :=
  match namespaces with
  | [] => Ok context
  | ns :: rest => inner ← get_member context ns; descend rest inner
  end.

(** [f.apply(context, [req, res, next])]: a function runs; on anything
    else [apply] is missing or not callable.  An object that has a function
    member called [apply] would have that one called, with other
    arguments. *)
Definition apply_member (f : member) (send : value → M unit) : M unit :=
  match f with
  | MFunction h => h send
  | MData _ => lift (Throw TypeError)
  | MObject members =>
      match own_member members "apply" with
      | Some (MFunction _) => lift Unmodelled
      | _ => lift (Throw TypeError)
      end
  end.

Definition executeFunctionByName (functionName : string) (context : member)
    (send : value → M unit) : M unit :=
  let namespaces := split_dots functionName in
  let func := default "undefined" (last namespaces) in
  let namespaces := removelast namespaces in
  context ← lift (descend namespaces context);
  f ← lift (get_member context func);
  apply_member f send.

Section Dispatch.

Variable path_join : string → string → string.
Variable disk : string → outcome module_value.
Variable validate : value → value → outcome (option (list schema_error)).

(** The function a controller file exports under a name. *)
Variable body : string → string → handler.

(** The object a loaded module is to the dispatcher. *)
Definition exports (file : string) (m : module_value) : member :=
  match m with
  | ModUndefined => MData VUndefined
  | ModNull => MData VNull
  | ModExports operations =>
      MObject (map (fun name => (name, MFunction (body file name))) operations)
  end.

(** [path.join(options.controllers, controllerName)] takes strings only. *)
Definition controller_file (controllers : string) (controllerName : value)
  : outcome string :=
  match controllerName with
  | VStr name => Ok (path_join controllers name)
  | _ => Throw TypeError
  end.

(** The request handler: resolution, loading of the controller, the
    replacement of [res.send], dispatch. *)
Definition OASRouter (controllers : string) (spec : value)
    (requestedUlr req_method : string) : M unit :=
  let url := requestedUlr in
  let method := toLowerCase req_method in
  '(controllerName, opID) ← resolve path_join disk controllers spec requestedUlr req_method;
  file ← lift (controller_file controllers controllerName);
  controller ← require disk file;
  executeFunctionByName opID (exports file controller)
    (res_send validate spec method url).

End Dispatch.

(** Handlers and controllers to run the dispatcher on. *)
Definition send_pig : handler := fun send => send pig.

Definition teapot : handler := fun send w =>
  send (VStr "teapot") (World (log w) 418 (delivered w) (loaded w) (pending w)).

Definition pet_bodies (file name : string) : handler :=
  if String.eqb name "listpets" then send_pig else teapot.

(** A controllers directory with a module for the named controller of
    [POST /pets] and a module under the default name. *)
Definition store_disk (file : string) : outcome module_value :=
  if String.eqb file "/app/controllers/storeController"
  then Ok (ModExports ["addPet"; "removePet"])
  else if String.eqb file "/app/controllers/Defualt"
  then Ok (ModExports ["listToys"])
  else pet_disk file.

(** A second specification, with the corners a document can have: an
    operation without responses, a JSON content without a schema,
    a response entry that is [null], identifiers and controller names
    that are not strings, a controller that does not exist, one that
    exports [null], an identifier that the controller does not export. *)
Definition bare_props : list (string * value) :=
  [("summary", VStr "no responses")].

Definition loose_section_props : list (string * value) :=
  [("description", VStr "ok"); ("content", VObj [("application/json", VObj [])])].

Definition loose_responses : list (string * value) :=
  [("200", VObj loose_section_props); ("204", VNull)].

Definition loose_props : list (string * value) :=
  [("operationId", VStr "listLoose"); ("responses", VObj loose_responses)].

Definition odd_get_props : list (string * value) :=
  [("x-router-controller", VNum 7); ("operationId", VStr "list")].

Definition odd_post_props : list (string * value) :=
  [("operationId", VNum 42)].

Definition odd_patch_props : list (string * value) :=
  [("operationId", VNum 1000000000000000000000)].

Definition odd_put_props : list (string * value) :=
  [("operationId", VNull)].

Definition ghost_props : list (string * value) :=
  [("x-router-controller", VStr "ghostController"); ("operationId", VStr "haunt")].

Definition feed_props : list (string * value) :=
  [("x-router-controller", VStr "storeController"); ("operationId", VStr "feedPet")].

Definition toys_props : list (string * value) :=
  [("operationId", VStr "listToys")].

Definition bones_props : list (string * value) :=
  [("x-router-controller", VStr "bonesControllers"); ("operationId", VStr "gnaw")].

Definition kennel : value :=
  VObj [("paths",
         VObj [("/bare", VObj [("get", VObj bare_props)]);
               ("/loose", VObj [("get", VObj loose_props)]);
               ("/odd", VObj [("get", VObj odd_get_props);
                              ("post", VObj odd_post_props);
                              ("put", VObj odd_put_props);
                              ("patch", VObj odd_patch_props)]);
               ("/ghost", VObj [("get", VObj ghost_props)]);
               ("/feed", VObj [("get", VObj feed_props)]);
               ("/toys", VObj [("get", VObj toys_props)]);
               ("/bones", VObj [("get", VObj bones_props)])])].

(** A world in which one file has been loaded. *)
Definition having (file : string) (m : module_value) (status : Z) : world :=
  World [] status [] (<[file := m]> ∅) [].

Definition pets_members : list (string * member) :=
  [("list", MFunction send_pig); ("version", MData (VNum 2))].

Definition nested_members : list (string * member) :=
  [("pets", MObject pets_members); ("ping", MFunction teapot)].

Definition nested_controller : member := MObject nested_members.

(** A [send] that hands its argument to the transport as it is. *)
Definition plain_send : value → M unit := fun v => oldSend [v].

(** ** Auxiliary definitions for the statements *)

(** What the loop of [processErr] appends: every message behind a
    separator. *)
Fixpoint separated (err : list schema_error) : string :=
  match err with
  | [] => ""
  | e :: rest => ". " +:+ message e +:+ separated rest
  end.

(** How [checkResponse] prints the serialized payload in its log. *)
Definition data_line (data : value) : string :=
  match serialize data with
  | Some s => s
  | None => "undefined"
  end.

(** The six entries [checkResponse] logs before it looks anything up. *)
Definition preamble (code : Z) (spec_line method url : string) (data : value)
  : list value :=
  [ VStr "Processing at checkResponse:";
    VStr ("  -code: " +:+ Number_toString code);
    VStr ("  -spec: " +:+ spec_line);
    VStr ("  -method: " +:+ method);
    VStr ("  -url: " +:+ url);
    VStr ("  -data: " +:+ data_line data) ].

(** Whether a string starts with a decimal digit. *)
Definition digit_led (s : string) : bool :=
  match s with
  | String c _ => bool_decide (is_Some (digit_value c))
  | EmptyString => false
  end.

(** What may follow a numeral in a JSON text: not a digit, and nothing that
    would continue it into a fraction or an exponent. *)
Definition ends_number (rest : string) : bool :=
  match rest with
  | String c _ =>
      negb (bool_decide (is_Some (digit_value c)) || Ascii.eqb c "." || Ascii.eqb c "e"
            || Ascii.eqb c "E")
  | EmptyString => true
  end.

(** How the text of a value may start: not with a blank, a closing bracket
    or a comma. *)
Definition opens_value (s : string) : bool :=
  match s with
  | String c _ => negb (is_ws c || Ascii.eqb c "]" || Ascii.eqb c "}" || Ascii.eqb c ",")
  | EmptyString => false
  end.

(** A text that [parse_value] reads as one value, whatever follows it,
    with fuel for its length. *)
Definition value_text (t : string) : Prop :=
  opens_value t = true
  ∧ ∀ fuel rest, (String.length t ≤ fuel)%nat → ends_number rest = true →
      ∃ x, parse_value fuel (t +:+ rest) = Ok (x, rest).

(** A text that [parse_unsigned] reads as one number, whatever the sign in
    front of it and whatever follows it. *)
Definition numeral_text (t : string) : Prop :=
  ∃ c r, t = String c r ∧ is_Some (digit_value c)
         ∧ ∀ sign rest, ends_number rest = true →
             ∃ x, parse_unsigned sign (t +:+ rest) = Ok (x, rest).

Fixpoint all_digits (t : string) : bool :=
  match t with
  | String c t' => bool_decide (is_Some (digit_value c)) && all_digits t'
  | EmptyString => true
  end.

(** A digit other than zero. *)
Definition lead_digit (c : ascii) : bool :=
  match digit_value c with
  | Some 0 | None => false
  | Some _ => true
  end.

(** What [parse_elements] has in front of it after an element: the
    remaining elements, each behind its comma, and the closing bracket. *)
Fixpoint elements_tail (ts : list string) : string :=
  match ts with
  | [] => "]"
  | t :: ts' => "," +:+ t +:+ elements_tail ts'
  end.

(** The text of an object member: the quoted key, a colon, the text of a
    value. *)
Definition member_text (m : string) : Prop :=
  ∃ k t, m = quote k +:+ ":" +:+ t ∧ value_text t.

Fixpoint members_tail (ms : list string) : string :=
  match ms with
  | [] => "}"
  | m :: ms' => "," +:+ m +:+ members_tail ms'
  end.

(** A log entry that reports a contract violation. *)
Definition is_warning (entry : value) : bool :=
  match entry with
  | VStr s => bool_decide (is_Some (starts_with "WARNING" s))
  | _ => false
  end.

(** A computation is settled when running it again, from the world it
    left, gives the same completion and changes nothing more. *)
Definition settled {A : Type} (m : M A) : Prop :=
  ∀ w, m (snd (m w)) = m w.

(** A computation that leaves the world alone. *)
Definition stateless {A : Type} (m : M A) : Prop :=
  ∃ o, ∀ w, m w = (o, w).

(** ** Proof steps *)

(** One step of symbolic execution in [M]. *)
Ltac run :=
  cbv [mbind mret M_bind M_ret lift logger_info res_statusCode oldSend nth];
  cbn [log statusCode delivered loaded pending].


(** * Properties *)

(** ** Strings *)

Lemma substring_whole (s : string) : String.substring 0 (String.length s) s = s.
Proof. induction s as [|c s IH]; simpl; [reflexivity | by rewrite IH]. Qed.

Lemma substring_from (s : string) (k : nat) :
  (k ≤ String.length s)%nat →
  substring s (Z.of_nat k) (Z.of_nat (String.length s))
  = String.substring k (String.length s - k) s.
Proof.
  intros Hk. unfold substring.
  rewrite !Z.max_l by lia.
  rewrite (Z.min_l (Z.of_nat k)) by lia.
  rewrite (Z.min_l (Z.of_nat (String.length s))) by lia.
  rewrite Z.min_l, Z.max_r by lia.
  f_equal; lia.
Qed.

Lemma substring_after_separator (t : string) :
  substring (". " +:+ t) 2 (Z.of_nat (String.length (". " +:+ t))) = t.
Proof.
  change 2 with (Z.of_nat 2).
  rewrite (substring_from (". " +:+ t) 2) by (simpl; lia).
  simpl. rewrite Nat.sub_0_r. apply substring_whole.
Qed.

Lemma append_cons (x : ascii) (a b : string) : String x a +:+ b = String x (a +:+ b).
Proof. reflexivity. Qed.

Lemma append_assoc (a b c : string) : (a +:+ b) +:+ c = a +:+ (b +:+ c).
Proof.
  induction a as [|x a' IH]; [reflexivity |].
  rewrite !append_cons. by rewrite IH.
Qed.

Lemma append_empty_r (a : string) : a +:+ "" = a.
Proof.
  induction a as [|x a' IH]; [reflexivity |].
  rewrite append_cons. by rewrite IH.
Qed.

Lemma length_append (a b : string) :
  String.length (a +:+ b) = (String.length a + String.length b)%nat.
Proof.
  induction a as [|x a' IH]; [reflexivity |].
  rewrite append_cons. cbn [String.length]. by rewrite IH.
Qed.

Lemma append_nil_l (b : string) : "" +:+ b = b.
Proof. reflexivity. Qed.

(** ** [processErr] *)

Lemma processErr_loop_separated (err : list schema_error) (errors : string) :
  processErr_loop errors err = errors +:+ separated err.
Proof.
  revert errors. induction err as [|e rest IH]; intros errors; simpl.
  - by rewrite append_empty_r.
  - rewrite IH. by rewrite !append_assoc.
Qed.

Lemma separated_join (e : schema_error) (rest : list schema_error) :
  separated (e :: rest) = ". " +:+ join ". " (map message (e :: rest)).
Proof.
  revert e. induction rest as [|e' rest IH]; intros e.
  - simpl. by rewrite append_empty_r.
  - change (separated (e :: e' :: rest))
      with (". " +:+ message e +:+ separated (e' :: rest)).
    rewrite IH. reflexivity.
Qed.

(** C8. For every list of validation errors, [processErr] returns the
    errors' messages joined by the separator [". "], the separator in front
    of the first one cut off; for a list of one error that is the error's
    message itself. *)
Theorem processErr_joins_messages (err : list schema_error) :
  processErr err = join ". " (map message err)
  ∧ ∀ e, processErr [e] = message e.
Proof.
  assert (H : ∀ l, processErr l = join ". " (map message l)).
  { intros [|e rest]; [reflexivity |].
    unfold processErr. rewrite processErr_loop_separated.
    change ("" +:+ separated (e :: rest)) with (separated (e :: rest)).
    rewrite separated_join. apply substring_after_separator. }
  split; [apply H | intros e; rewrite H; reflexivity].
Qed.

(** ** Own properties *)

Lemma hasOwnProperty_present (props : list (string * value)) (k : string) (v : value) :
  own props "hasOwnProperty" = None → own props k = Some v →
  hasOwnProperty (VObj props) k = Ok true.
Proof. intros Hhas Hk. unfold hasOwnProperty. by rewrite Hhas, Hk. Qed.

Lemma hasOwnProperty_absent (props : list (string * value)) (k : string) :
  own props "hasOwnProperty" = None → own props k = None →
  hasOwnProperty (VObj props) k = Ok false.
Proof. intros Hhas Hk. unfold hasOwnProperty. by rewrite Hhas, Hk. Qed.

(** A status code's property key is the text of a number, never the name
    of an inherited member: a response map without an entry for the code
    reads as [undefined]. *)
Lemma pretty_N_char_digit (x : N) (s : string) :
  digit_led (String (pretty_N_char x) s) = true.
Proof. unfold pretty_N_char. by repeat case_match. Qed.

Lemma pretty_N_go_digit_led (x : N) (s : string) :
  (0 < x)%N → digit_led (pretty_N_go x s) = true.
Proof.
  revert s. induction (N.lt_wf_0 x) as [x _ IH]; intros s Hx.
  rewrite pretty_N_go_step by done.
  destruct (decide (x `div` 10 = 0)%N) as [-> | Hq].
  - rewrite pretty_N_go_0. apply pretty_N_char_digit.
  - apply IH; [apply N.div_lt; lia | by apply N.neq_0_lt_0].
Qed.

Lemma pretty_Z_head (n : Z) :
  digit_led (pretty n) = true ∨ ∃ r, pretty n = String "-" r.
Proof.
  destruct n as [|p|p].
  - by left.
  - left. unfold pretty, pretty_Z, pretty, pretty_positive, pretty, pretty_N.
    rewrite decide_False by done. by apply pretty_N_go_digit_led.
  - right. by eexists.
Qed.

Lemma inherited_needs_letter (c : ascii) (r : string) :
  digit_led (String c r) = true ∨ c = "-"%char → inherited (String c r) = false.
Proof.
  intros [H | ->]; [| reflexivity]. revert H.
  destruct c as [[] [] [] [] [] [] [] []]; intros H; try discriminate H; reflexivity.
Qed.

Lemma decimal_not_inherited (n : Z) : inherited (pretty n) = false.
Proof.
  destruct (pretty_Z_head n) as [H | [r H]].
  - destruct (pretty n) as [|c r]; [discriminate H |].
    apply inherited_needs_letter. by left.
  - rewrite H. apply inherited_needs_letter. by right.
Qed.

Lemma strip_zeros_head (c d : ascii) (r r' : string) :
  strip_zeros (String c r) = String d r' → d = c.
Proof.
  cbn [strip_zeros]. destruct (strip_zeros r); [destruct (Ascii.eqb c "0") |]; congruence.
Qed.

Lemma pretty_Z_nonempty (n : Z) : ∃ c r, pretty n = String c r.
Proof.
  destruct (pretty_Z_head n) as [H | [r H]]; [| by eauto].
  destruct (pretty n) as [|c r]; [discriminate H | by eauto].
Qed.

(** The exponent form starts as the decimal does. *)
Lemma exponent_form_head (c : Z) :
  ∃ x r r', pretty c = String x r ∧ exponent_form c = String x r'.
Proof.
  destruct (pretty_Z_nonempty c) as (x & r & Hc). exists x, r.
  unfold exponent_form. rewrite Hc.
  destruct (strip_zeros (String x r)) as [|d ds] eqn:Hs; [by eauto |].
  apply strip_zeros_head in Hs as ->. destruct ds; by eauto.
Qed.

(** The text of a number is never the name of an inherited member. *)
Lemma Number_toString_not_inherited (n : Z) : inherited (Number_toString n) = false.
Proof.
  unfold Number_toString.
  destruct (nearest_double (Z.abs n) <? 2 ^ 53); [apply decimal_not_inherited |].
  destruct (n <? 0).
  { rewrite append_cons. apply inherited_needs_letter. by right. }
  rewrite append_nil_l.
  destruct (infinite (nearest_double (Z.abs n))); [reflexivity |].
  destruct (21 <? String.length (pretty (shortest (nearest_double (Z.abs n)))))%nat;
    [| apply decimal_not_inherited].
  destruct (exponent_form_head (shortest (nearest_double (Z.abs n))))
    as (x & r & r' & Hc & ->).
  apply inherited_needs_letter.
  destruct (pretty_Z_head (shortest (nearest_double (Z.abs n)))) as [Hd | [t Hd]];
    rewrite Hc in Hd; [by left | right; congruence].
Qed.

Lemma responseCodeSection_absent (spec : value) (url method : string)
    (d : value) (responses : list (string * value)) (code : Z) :
  operation spec url method = Ok d →
  get_prop d "responses" = Ok (VObj responses) →
  own responses (Number_toString code) = None →
  responseCodeSection spec url method code = Ok VUndefined.
Proof.
  intros Hop Hres Hown. unfold responseCodeSection. rewrite Hop.
  cbn [mbind outcome_bind]. rewrite Hres. cbn [mbind outcome_bind get_prop].
  by rewrite Hown, Number_toString_not_inherited.
Qed.

(** ** Names and identifiers *)

Lemma nameOfPath_string (url : string) :
  nameOfPath (VStr url) = Ok (substring url 1 (Z.of_nat (String.length url))).
Proof. reflexivity. Qed.

Lemma generateName_string (url : string) :
  generateName (VStr url)
  = Ok (substring url 1 (Z.of_nat (String.length url)) +:+ "Controllers").
Proof. reflexivity. Qed.

Lemma nameMethod_string (m : string) : nameMethod (VStr m) = Ok (stated_verb m).
Proof. reflexivity. Qed.

Lemma nameMethod_descriptor (props : list (string * value)) :
  own props "toString" = None → nameMethod (VObj props) = Ok "delete".
Proof. intros H. unfold nameMethod, call_toString, to_string. by rewrite H. Qed.

Lemma nameOfPath_descriptor (props : list (string * value)) :
  own props "toString" = None → own props "length" = None →
  nameOfPath (VObj props) = Ok "object Object]".
Proof.
  intros Ht Hl. unfold nameOfPath, call_toString, to_string, get_prop.
  by rewrite Ht, Hl.
Qed.

(** C1. When the Operation Descriptor has no [operationId] of its own,
    [generateOpId] hands the descriptor object, not the request method and
    not the requested path, to [nameMethod] and [nameOfPath]: whatever the
    method and the path are, the identifier is the text
    ["deleteobject Object]"]. *)
Theorem generateOpId_synthesized (spec : value) (url method : string)
    (props : list (string * value)) :
  operation spec url method = Ok (VObj props) →
  own props "hasOwnProperty" = None →
  own props "operationId" = None →
  own props "toString" = None →
  own props "length" = None →
  generateOpId spec url method = Ok "deleteobject Object]".
Proof.
  intros Hop Hhas Hid Ht Hl. unfold generateOpId. rewrite Hop.
  cbn [mbind outcome_bind]. unfold hasOwnProperty. rewrite Hhas, Hid.
  cbn [mbind outcome_bind bool_decide].
  rewrite nameMethod_descriptor, nameOfPath_descriptor by assumption.
  reflexivity.
Qed.

(** At [GET /pets] the text states ["listpets"]; the code gives the
    constant. *)
Lemma generateOpId_synthesized_witness :
  generateOpId petstore "/pets" (toLowerCase "GET") = Ok "deleteobject Object]"
  ∧ stated_opId "GET" "/pets" = "listpets".
Proof.
  split; [| reflexivity].
  apply (generateOpId_synthesized petstore "/pets" "get" pets_get_props);
    reflexivity.
Defined.

(** An explicit identifier is used verbatim. *)
Lemma generateOpId_explicit (spec : value) (url method : string)
    (props : list (string * value)) (id : string) :
  operation spec url method = Ok (VObj props) →
  own props "hasOwnProperty" = None →
  own props "operationId" = Some (VStr id) →
  generateOpId spec url method = Ok id.
Proof.
  intros Hop Hhas Hid. unfold generateOpId. rewrite Hop.
  cbn [mbind outcome_bind]. unfold hasOwnProperty. rewrite Hhas, Hid.
  change (bool_decide (is_Some (Some (VStr id)))) with true.
  cbn [mbind outcome_bind]. unfold get_prop. rewrite Hid. reflexivity.
Qed.

(** ** Text payloads always parse *)

Lemma parse_chars_escape_char (c : ascii) (rest : string) :
  parse_chars (escape_char c +:+ rest)
  = '(t, r) ← parse_chars rest; Ok (String c t, r).
Proof.
  destruct c as [[] [] [] [] [] [] [] []]; reflexivity.
Qed.

Lemma parse_chars_escape (s rest : string) :
  parse_chars (escape s +:+ String dquote rest) = Ok (s, rest).
Proof.
  induction s as [|c s IH].
  - reflexivity.
  - cbn [escape]. rewrite append_assoc, parse_chars_escape_char, IH. reflexivity.
Qed.

(** A string the handler sends is serialized to a string literal, which
    [JSON.parse] reads back: such a payload never fails to parse. *)
Lemma JSON_parse_stringify_string (s : string) :
  JSON_parse (JSON_stringify (VStr s)) = Ok (VStr s).
Proof.
  unfold JSON_stringify, JSON_parse. cbn [serialize to_string mbind outcome_bind].
  unfold quote. cbn [Nat.add parse_value].
  change (skip_ws (String dquote (escape s) +:+ String dquote ""))
    with (String dquote (escape s +:+ String dquote "")).
  change (Ascii.eqb dquote dquote) with true. cbn iota.
  rewrite parse_chars_escape. reflexivity.
Qed.

(** ** Every serialized payload parses *)

Lemma value_ind' (P : value → Prop) :
  P VUndefined → P VNull → (∀ b, P (VBool b)) → (∀ n, P (VNum n)) →
  (∀ s, P (VStr s)) →
  (∀ items, Forall P items → P (VArr items)) →
  (∀ props, Forall (λ p, P (snd p)) props → P (VObj props)) →
  ∀ v, P v.
Proof.
  intros Hu Hn Hb Hnum Hs Ha Ho. fix IH 1. intros [| |b|n|s|items|props].
  - exact Hu.
  - exact Hn.
  - apply Hb.
  - apply Hnum.
  - apply Hs.
  - apply Ha. revert items. fix go 1. intros [|x xs]; constructor; [apply IH | apply go].
  - apply Ho. revert props. fix go 1. intros [|[k x] ps]; constructor; [apply IH | apply go].
Qed.

Lemma fuel_pos (t : string) (fuel : nat) :
  opens_value t = true → (String.length t ≤ fuel)%nat → ∃ fuel', fuel = S fuel'.
Proof.
  destruct t as [|c t]; [discriminate |]. cbn [String.length]. intros _ H.
  destruct fuel as [|fuel']; [lia | by eexists].
Qed.

Ltac crunch :=
  cbv -[parse_value parse_elements parse_member parse_chars parse_digits
        String.substring String.length Nat.sub String.append escape pretty
        Z.add Z.mul Z.sub Z.opp].

Lemma value_text_null : value_text "null".
Proof.
  split; [reflexivity |]. intros fuel rest Hfuel _.
  destruct fuel as [|fuel']; [cbn in Hfuel; lia |].
  exists VNull.
  change ("null" +:+ rest) with (String "n" (String "u" (String "l" (String "l" rest)))).
  cbn [parse_value]. crunch. reflexivity.
Qed.

Lemma value_text_true : value_text "true".
Proof.
  split; [reflexivity |]. intros fuel rest Hfuel _.
  destruct fuel as [|fuel']; [cbn in Hfuel; lia |].
  exists (VBool true).
  change ("true" +:+ rest) with (String "t" (String "r" (String "u" (String "e" rest)))).
  cbn [parse_value]. crunch. reflexivity.
Qed.

Lemma value_text_false : value_text "false".
Proof.
  split; [reflexivity |]. intros fuel rest Hfuel _.
  destruct fuel as [|fuel']; [cbn in Hfuel; lia |].
  exists (VBool false).
  change ("false" +:+ rest)
    with (String "f" (String "a" (String "l" (String "s" (String "e" rest))))).
  cbn [parse_value]. crunch. reflexivity.
Qed.

Lemma value_text_quote (s : string) : value_text (quote s).
Proof.
  split; [reflexivity |]. intros fuel rest Hfuel _.
  destruct (fuel_pos (quote s) fuel eq_refl Hfuel) as [fuel' ->].
  exists (VStr s). unfold quote.
  rewrite !append_cons, append_assoc, append_cons.
  change ("" +:+ rest) with rest.
  cbn [parse_value]. crunch.
  by rewrite parse_chars_escape.
Qed.

(** *** Numerals *)

Lemma all_digits_app (a b : string) :
  all_digits a = true → all_digits b = true → all_digits (a +:+ b) = true.
Proof.
  induction a as [|c a' IH]; [done |]. rewrite append_cons. cbn [all_digits].
  intros [H1 H2]%andb_true_iff Hb. by rewrite H1, IH.
Qed.

Lemma pretty_N_char_all_digits (d : N) : all_digits (String (pretty_N_char d) "") = true.
Proof. unfold pretty_N_char. by repeat case_match. Qed.

Lemma pretty_N_char_lead (d : N) : (0 < d)%N → lead_digit (pretty_N_char d) = true.
Proof. unfold pretty_N_char. intros H. repeat case_match; try reflexivity; lia. Qed.

Lemma pretty_N_char_value (d : N) :
  (d < 10)%N → digit_value (pretty_N_char d) = Some (Z.of_N d).
Proof.
  intros H.
  assert (Hd : d ∈ [0; 1; 2; 3; 4; 5; 6; 7; 8; 9]%N).
  { rewrite !elem_of_cons. lia. }
  rewrite !elem_of_cons, elem_of_nil in Hd.
  destruct Hd as [-> | [-> | [-> | [-> | [-> | [-> | [-> | [-> | [-> | [-> | []]]]]]]]]]];
    reflexivity.
Qed.

(** The numeral of a positive number: a leading digit that is not zero,
    then digits, in front of the accumulator. *)
Lemma pretty_N_go_shape (x : N) (s : string) :
  (0 < x)%N →
  ∃ c t, pretty_N_go x s = String c (t +:+ s)
         ∧ lead_digit c = true ∧ all_digits t = true.
Proof.
  revert s. induction (N.lt_wf_0 x) as [x _ IH]; intros s Hx.
  rewrite pretty_N_go_step by done.
  destruct (decide (x `div` 10 = 0)%N) as [Hq | Hq].
  - rewrite Hq, pretty_N_go_0. exists (pretty_N_char (x `mod` 10)), "".
    split; [reflexivity |]. split; [| reflexivity].
    apply pretty_N_char_lead.
    rewrite (N.div_mod x 10) in Hx by done. rewrite Hq in Hx. lia.
  - destruct (IH (x `div` 10)%N) with (s := String (pretty_N_char (x `mod` 10)) s)
      as (c & t & -> & Hc & Ht); [apply N.div_lt; lia | by apply N.neq_0_lt_0 |].
    exists c, (t +:+ String (pretty_N_char (x `mod` 10)) "").
    split; [by rewrite append_assoc |]. split; [done |].
    apply all_digits_app; [done | apply pretty_N_char_all_digits].
Qed.

(** Reading a numeral back gives its number. *)
Lemma parse_digits_pretty_N_go (x : N) :
  (0 < x)%N →
  ∃ k : nat, ∀ acc s,
    parse_digits acc (pretty_N_go x s) = parse_digits (acc * 10 ^ Z.of_nat k + Z.of_N x) s.
Proof.
  induction (N.lt_wf_0 x) as [x _ IH]; intros Hx.
  assert (Hmod : (x `mod` 10 < 10)%N) by (apply N.mod_lt; lia).
  pose proof (N.div_mod x 10 ltac:(lia)) as Hdm.
  destruct (decide (x `div` 10 = 0)%N) as [Hq | Hq].
  - exists 1%nat. intros acc s. rewrite pretty_N_go_step by done.
    rewrite Hq, pretty_N_go_0. cbn [parse_digits].
    rewrite pretty_N_char_value by done. f_equal.
    change (10 ^ Z.of_nat 1) with 10. lia.
  - destruct (IH (x `div` 10)%N) as [k Hk]; [apply N.div_lt; lia | by apply N.neq_0_lt_0 |].
    exists (S k). intros acc s. rewrite pretty_N_go_step by done.
    rewrite Hk. cbn [parse_digits]. rewrite pretty_N_char_value by done. f_equal.
    rewrite Nat2Z.inj_succ, Z.pow_succ_r by lia.
    generalize (10 ^ Z.of_nat k). intros p. lia.
Qed.

Lemma pretty_N_go_app (x : N) (s : string) :
  (0 < x)%N → pretty_N_go x s = pretty_N_go x "" +:+ s.
Proof.
  revert s. induction (N.lt_wf_0 x) as [x _ IH]; intros s Hx.
  rewrite !(pretty_N_go_step x) by done.
  destruct (decide (x `div` 10 = 0)%N) as [Hq | Hq].
  - by rewrite Hq, !pretty_N_go_0.
  - assert (Hlt : (x `div` 10 < x)%N) by (apply N.div_lt; lia).
    assert (Hpos : (0 < x `div` 10)%N) by (by apply N.neq_0_lt_0).
    rewrite (IH _ Hlt (String _ s) Hpos), (IH _ Hlt (String _ "") Hpos).
    by rewrite append_assoc.
Qed.

Lemma parse_digits_stop (acc : Z) (rest : string) :
  leads_digit rest = false → parse_digits acc rest = (acc, rest).
Proof.
  destruct rest as [|c r]; [done |]. cbn [leads_digit parse_digits].
  intros H%bool_decide_eq_false. destruct (digit_value c); [| done].
  by destruct H.
Qed.

Lemma parse_digits_numeral (m : Z) (rest : string) :
  0 < m → leads_digit rest = false →
  parse_digits 0 (pretty m +:+ rest) = (m, rest).
Proof.
  intros Hm Hrest. destruct m as [|p|p]; [lia | | lia].
  unfold pretty, pretty_Z, pretty, pretty_positive, pretty, pretty_N.
  rewrite decide_False by done.
  rewrite <- pretty_N_go_app by lia.
  destruct (parse_digits_pretty_N_go (N.pos p)) as [k ->]; [lia |].
  rewrite parse_digits_stop by done. f_equal; lia.
Qed.

Lemma ends_number_no_digit (rest : string) :
  ends_number rest = true → leads_digit rest = false.
Proof.
  destruct rest as [|c r]; [done |]. cbn [ends_number leads_digit].
  intros H%negb_true_iff. by repeat (apply orb_false_iff in H as [H _]).
Qed.

Lemma number_tail_ends (sign n : Z) (rest : string) :
  ends_number rest = true →
  number_tail sign n rest = Ok (VNum (sign * nearest_double n), rest).
Proof.
  intros H.
  assert (Hint : integral sign n 0 0 rest = Ok (VNum (sign * nearest_double n), rest)).
  { unfold integral. change (0 - 0) with 0. change (0 <=? 0) with true.
    cbv iota. by rewrite Z.pow_0_r, Z.mul_1_r. }
  destruct rest as [|c r]; [exact Hint |].
  cbn [ends_number] in H. apply negb_true_iff in H.
  apply orb_false_iff in H as [H HE]. apply orb_false_iff in H as [H He].
  apply orb_false_iff in H as [_ Hdot].
  unfold number_tail. rewrite Hdot. unfold parse_exponent. by rewrite He, HE.
Qed.

Lemma parse_digits_all (t rest : string) (acc : Z) :
  all_digits t = true → ends_number rest = true →
  ∃ m, parse_digits acc (t +:+ rest) = (m, rest).
Proof.
  revert acc. induction t as [|c t' IH]; intros acc Ht Hrest.
  - change ("" +:+ rest) with rest. exists acc.
    by apply parse_digits_stop, ends_number_no_digit.
  - rewrite append_cons. cbn [parse_digits]. cbn [all_digits] in Ht.
    apply andb_true_iff in Ht as [Hc Ht]. apply bool_decide_eq_true in Hc as [d Hd].
    rewrite Hd. by apply IH.
Qed.

Lemma parse_unsigned_numeral (sign : Z) (c : ascii) (t rest : string) :
  lead_digit c = true → all_digits t = true → ends_number rest = true →
  ∃ x, parse_unsigned sign (String c (t +:+ rest)) = Ok (x, rest).
Proof.
  intros Hc Ht Hrest. unfold parse_unsigned. unfold lead_digit in Hc.
  destruct (digit_value c) as [[|d|d]|]; try discriminate Hc.
  - destruct (parse_digits_all t rest (Z.pos d) Ht Hrest) as [m ->].
    eexists. by apply number_tail_ends.
  - destruct (parse_digits_all t rest (Z.neg d) Ht Hrest) as [m ->].
    eexists. by apply number_tail_ends.
Qed.

Lemma parse_value_digit (fuel : nat) (c : ascii) (r : string) :
  is_Some (digit_value c) →
  parse_value (S fuel) (String c r) = parse_unsigned 1 (String c r).
Proof.
  intros [d Hd]. revert Hd.
  destruct c as [[] [] [] [] [] [] [] []]; intros Hd; try discriminate Hd; reflexivity.
Qed.

Lemma lead_digit_is_digit (c : ascii) : lead_digit c = true → is_Some (digit_value c).
Proof. unfold lead_digit. destruct (digit_value c); [by eexists | done]. Qed.

Lemma digit_opens (c : ascii) (r : string) :
  is_Some (digit_value c) → opens_value (String c r) = true.
Proof.
  intros [d Hd]. revert Hd.
  destruct c as [[] [] [] [] [] [] [] []]; intros Hd; try discriminate Hd; reflexivity.
Qed.

Lemma pretty_positive_shape (p : positive) :
  ∃ c t, pretty (Z.pos p) = String c t ∧ lead_digit c = true ∧ all_digits t = true.
Proof.
  unfold pretty, pretty_Z, pretty, pretty_positive, pretty, pretty_N.
  rewrite decide_False by done.
  destruct (pretty_N_go_shape (N.pos p) "") as (c & t & -> & Hc & Ht); [lia |].
  exists c, t. by rewrite append_empty_r.
Qed.

Lemma value_text_unsigned (t : string) : numeral_text t → value_text t.
Proof.
  intros (c & r & -> & Hc & Hparse). split; [by apply digit_opens |].
  intros fuel rest Hfuel Hrest.
  destruct fuel as [|fuel']; [cbn in Hfuel; lia |].
  rewrite append_cons, parse_value_digit by done.
  rewrite <- append_cons. by apply Hparse.
Qed.

Lemma value_text_negative (t : string) : numeral_text t → value_text ("-" +:+ t).
Proof.
  intros (c & r & -> & Hc & Hparse). split; [reflexivity |].
  intros fuel rest Hfuel Hrest.
  change ("-" +:+ String c r) with (String "-" (String c r)) in *.
  destruct fuel as [|fuel']; [cbn [String.length] in Hfuel; lia |].
  rewrite append_cons.
  change (parse_value (S fuel') (String "-" (String c r +:+ rest)))
    with (parse_unsigned (-1) (String c r +:+ rest)).
  by apply Hparse.
Qed.

Lemma numeral_text_positive (p : positive) : numeral_text (pretty (Z.pos p)).
Proof.
  destruct (pretty_positive_shape p) as (c & t & Hp & Hc & Ht). rewrite Hp.
  exists c, t. split; [done |]. split; [by apply lead_digit_is_digit |].
  intros sign rest Hrest. rewrite append_cons. by apply parse_unsigned_numeral.
Qed.

Lemma value_text_numeral (n : Z) : value_text (pretty n).
Proof.
  destruct n as [|p|p].
  - apply value_text_unsigned. exists "0"%char, "". split; [done |].
    split; [by eexists |]. intros sign rest Hrest.
    change (pretty 0 +:+ rest) with (String "0" rest).
    eexists. cbn [parse_unsigned digit_value]. cbn. by apply number_tail_ends.
  - apply value_text_unsigned, numeral_text_positive.
  - change (pretty (Z.neg p)) with ("-" +:+ pretty (Z.pos p)).
    apply value_text_negative, numeral_text_positive.
Qed.

(** *** Numerals in exponent form *)

Lemma strip_zeros_lead (d : ascii) (t : string) :
  lead_digit d = true → strip_zeros (String d t) = String d (strip_zeros t).
Proof.
  intros Hd. cbn [strip_zeros]. destruct (strip_zeros t); [| done].
  destruct (Ascii.eqb_spec d "0") as [-> | _]; [discriminate Hd | done].
Qed.

Lemma strip_zeros_digits (t : string) :
  all_digits t = true →
  all_digits (strip_zeros t) = true
  ∧ (String.length (strip_zeros t) ≤ String.length t)%nat.
Proof.
  induction t as [|c t IH]; [done |]. cbn [all_digits strip_zeros String.length].
  intros [Hc Ht]%andb_true_iff. destruct (IH Ht) as [Hs Hlen].
  destruct (strip_zeros t) as [|x r].
  - destruct (Ascii.eqb c "0"); cbn [all_digits String.length]; [split; [done | lia] |].
    rewrite Hc. split; [done | lia].
  - cbn [all_digits String.length] in *. rewrite Hc. split; [done | lia].
Qed.

Lemma parse_fraction_all (t rest : string) (mant places : Z) :
  all_digits t = true → leads_digit rest = false →
  ∃ m, parse_fraction mant places (t +:+ rest)
       = (m, places + Z.of_nat (String.length t), rest).
Proof.
  revert mant places. induction t as [|c t' IH]; intros mant places Ht Hrest.
  - change ("" +:+ rest) with rest. exists mant. cbn [String.length].
    rewrite Z.add_0_r. destruct rest as [|c r]; [done |].
    cbn [leads_digit] in Hrest. apply bool_decide_eq_false in Hrest.
    cbn [parse_fraction]. destruct (digit_value c); [| done]. by destruct Hrest.
  - rewrite append_cons. cbn [parse_fraction]. cbn [all_digits] in Ht.
    apply andb_true_iff in Ht as [Hc Ht]. apply bool_decide_eq_true in Hc as [d Hd].
    rewrite Hd. destruct (IH (10 * mant + d) (places + 1) Ht Hrest) as [m ->].
    exists m. cbn [String.length]. do 2 f_equal. lia.
Qed.

Lemma leads_digit_numeral (m : Z) (rest : string) :
  0 < m → leads_digit (pretty m +:+ rest) = true.
Proof.
  intros Hm. destruct m as [|p|p]; [lia | | lia].
  destruct (pretty_positive_shape p) as (c & t & -> & Hc & _).
  rewrite append_cons. cbn [leads_digit]. by apply bool_decide_eq_true, lead_digit_is_digit.
Qed.

Lemma parse_exponent_text (sign mant places m : Z) (rest : string) :
  0 < m → places ≤ m → ends_number rest = true →
  ∃ x, parse_exponent sign mant places ("e+" +:+ pretty m +:+ rest) = Ok (x, rest).
Proof.
  intros Hm Hplaces Hrest.
  change ("e+" +:+ pretty m +:+ rest) with (String "e" (String "+" (pretty m +:+ rest))).
  unfold parse_exponent.
  change (Ascii.eqb "e" "e" || Ascii.eqb "e" "E") with true.
  change (Ascii.eqb "+" "+") with true. cbv iota.
  rewrite leads_digit_numeral by done.
  rewrite parse_digits_numeral by (by try apply ends_number_no_digit).
  unfold integral. rewrite Z.mul_1_l.
  destruct (Z.leb_spec 0 (m - places)); [by eexists | lia].
Qed.

Lemma numeral_text_exponent (p : positive) :
  (21 < String.length (pretty (Z.pos p)))%nat → numeral_text (exponent_form (Z.pos p)).
Proof.
  intros Hlen. unfold exponent_form.
  destruct (pretty_positive_shape p) as (d & t & Hp & Hd & Ht). rewrite Hp in *.
  rewrite strip_zeros_lead by done.
  destruct (strip_zeros_digits t Ht) as [Hds Hshort].
  cbn [String.length] in Hlen, Hshort |- *.
  set (m := Z.of_nat (S (String.length t)) - 1).
  assert (Hm : 0 < m) by (unfold m; lia).
  assert (Hdv : ∃ q, digit_value d = Some (Z.pos q)).
  { unfold lead_digit in Hd. destruct (digit_value d) as [[|q|q]|] eqn:E; try done.
    - by eexists.
    - revert E. unfold digit_value. case_match eqn:Hrange; [| done]. intros [= E].
      apply andb_true_iff in Hrange as [Hlow%N.leb_le _]. lia. }
  destruct Hdv as [q Hq].
  destruct (strip_zeros t) as [|x ds] eqn:Hstrip.
  - eexists d, _. split; [reflexivity |]. split; [by apply lead_digit_is_digit |].
    intros sign rest Hrest. rewrite append_cons.
    unfold parse_unsigned. rewrite Hq.
    change (("e+" +:+ pretty m) +:+ rest) with (String "e" (String "+" (pretty m +:+ rest))).
    cbn [parse_digits digit_value]. 
    change (digit_value "e") with (@None Z). cbv iota.
    unfold number_tail. change (Ascii.eqb "e" ".") with false. cbv iota.
    apply (parse_exponent_text sign (Z.pos q) 0 m rest); [done | lia | done].
  - eexists d, _. split; [reflexivity |]. split; [by apply lead_digit_is_digit |].
    intros sign rest Hrest. rewrite append_cons.
    unfold parse_unsigned. rewrite Hq.
    rewrite !append_assoc.
    change ("." +:+ String x ds +:+ "e+" +:+ pretty m +:+ rest)
      with (String "." (String x ds +:+ "e+" +:+ pretty m +:+ rest)).
    cbn [parse_digits]. change (digit_value ".") with (@None Z). cbv iota.
    unfold number_tail. change (Ascii.eqb "." ".") with true. cbv iota.
    assert (Hx : leads_digit (String x ds +:+ "e+" +:+ pretty m +:+ rest) = true).
    { rewrite append_cons. cbn [leads_digit]. cbn [all_digits] in Hds.
      by apply andb_true_iff in Hds as [-> _]. }
    rewrite Hx.
    destruct (parse_fraction_all (String x ds) ("e+" +:+ pretty m +:+ rest) (Z.pos q) 0 Hds)
      as [mant ->]; [reflexivity |].
    apply parse_exponent_text; [done | | done].
    unfold m. lia.
Qed.

Lemma nearest_double_positive (c x : Z) : 2 ^ 53 ≤ x → nearest_double c = x → 0 < c.
Proof.
  intros Hx. unfold nearest_double.
  destruct (Z.ltb_spec c (2 ^ 53)) as [Hc | Hc]; [intros ->; lia |].
  intros _. assert (0 < 2 ^ 53) by (by apply Z.pow_pos_nonneg). lia.
Qed.

Lemma candidate_denotes (x : Z) (k : nat) (c : Z) :
  candidate x k = Some c → nearest_double c = x.
Proof.
  unfold candidate.
  repeat case_bool_decide; try case_match; intros [= <-]; done.
Qed.

Lemma first_candidate_denotes (x : Z) (ks : list nat) :
  first_candidate x ks = x ∨ nearest_double (first_candidate x ks) = x.
Proof.
  induction ks as [|k ks IH]; [by left |]. cbn [first_candidate].
  destruct (candidate x k) as [c|] eqn:Hc; [| exact IH].
  right. by apply (candidate_denotes x k).
Qed.

Lemma shortest_positive (x : Z) : 2 ^ 53 ≤ x → 0 < shortest x.
Proof.
  intros Hx. unfold shortest.
  destruct (first_candidate_denotes x (seq 1 (String.length (pretty x)))) as [-> | H].
  - assert (0 < 2 ^ 53) by (by apply Z.pow_pos_nonneg). lia.
  - by apply (nearest_double_positive _ x).
Qed.

(** The JSON text of every number reads as one value. *)
Lemma value_text_number (n : Z) : value_text (Number_json n).
Proof.
  unfold Number_json, Number_toString.
  destruct (infinite (nearest_double (Z.abs n))); [apply value_text_null |].
  destruct (Z.ltb_spec (nearest_double (Z.abs n)) (2 ^ 53)) as [_ | Hx];
    [apply value_text_numeral |].
  pose proof (shortest_positive _ Hx) as Hc.
  destruct (shortest (nearest_double (Z.abs n))) as [|p|p]; [lia | | lia].
  assert (Htext : numeral_text
            (if (21 <? String.length (pretty (Z.pos p)))%nat
             then exponent_form (Z.pos p) else pretty (Z.pos p))).
  { destruct (Nat.ltb_spec 21 (String.length (pretty (Z.pos p))));
      [by apply numeral_text_exponent | apply numeral_text_positive]. }
  destruct (n <? 0).
  - by apply value_text_negative.
  - rewrite append_nil_l. by apply value_text_unsigned.
Qed.

(** *** Arrays *)

Lemma join_elements (t : string) (ts : list string) :
  join "," (t :: ts) +:+ "]" = t +:+ elements_tail ts.
Proof.
  revert t. induction ts as [|t' ts IH]; intros t; [reflexivity |].
  change (join "," (t :: t' :: ts)) with (t +:+ "," +:+ join "," (t' :: ts)).
  rewrite !append_assoc. by rewrite IH.
Qed.

Lemma ends_number_elements (ts : list string) (rest : string) :
  ends_number (elements_tail ts +:+ rest) = true.
Proof. by destruct ts. Qed.

Lemma opens_value_inv (t : string) :
  opens_value t = true →
  ∃ c r, t = String c r ∧ is_ws c = false ∧ Ascii.eqb c "]" = false
         ∧ Ascii.eqb c "}" = false ∧ Ascii.eqb c "," = false.
Proof.
  destruct t as [|c r]; [done |]. cbn [opens_value]. intros H%negb_true_iff.
  apply orb_false_iff in H as [H H4]. apply orb_false_iff in H as [H H3].
  apply orb_false_iff in H as [H1 H2]. by exists c, r.
Qed.

Lemma parse_value_bracket (fuel : nat) (body : string) :
  parse_value (S fuel) (String "[" body)
  = match skip_ws body with
    | String c' rest' =>
        if Ascii.eqb c' "]" then Ok (VArr [], rest')
        else '(x, r) ← parse_value fuel body; parse_elements fuel [x] r
    | EmptyString => Throw SyntaxError
    end.
Proof. reflexivity. Qed.

Lemma parse_elements_close (fuel : nat) (acc : list value) (rest : string) :
  parse_elements (S fuel) acc (String "]" rest) = Ok (VArr acc, rest).
Proof. reflexivity. Qed.

Lemma parse_elements_comma (fuel : nat) (acc : list value) (body : string) :
  parse_elements (S fuel) acc (String "," body)
  = '(x, r) ← parse_value fuel body; parse_elements fuel (acc ++ [x]) r.
Proof. reflexivity. Qed.

Lemma elements_tail_cons (t : string) (ts : list string) :
  elements_tail (t :: ts) = String "," (t +:+ elements_tail ts).
Proof. reflexivity. Qed.

Lemma parse_elements_tail (ts : list string) :
  Forall value_text ts →
  ∀ fuel acc rest, (String.length (elements_tail ts) ≤ fuel)%nat →
    ∃ x, parse_elements fuel acc (elements_tail ts +:+ rest) = Ok (x, rest).
Proof.
  induction 1 as [|t ts [_ Ht] _ IH]; intros fuel acc rest Hfuel.
  - destruct fuel as [|fuel']; [cbn in Hfuel; lia |].
    eexists. apply parse_elements_close.
  - rewrite elements_tail_cons in *.
    cbn [String.length] in Hfuel. rewrite length_append in Hfuel.
    destruct fuel as [|fuel']; [lia |].
    rewrite append_cons, append_assoc, parse_elements_comma.
    destruct (Ht fuel' (elements_tail ts +:+ rest)) as [x ->];
      [lia | apply ends_number_elements |].
    cbn [mbind outcome_bind]. apply IH. lia.
Qed.

Lemma bracket_cons (body : string) : "[" +:+ body = String "[" body.
Proof. reflexivity. Qed.

Lemma value_text_array (ts : list string) :
  Forall value_text ts → value_text ("[" +:+ join "," ts +:+ "]").
Proof.
  intros Hts. split; [reflexivity |]. intros fuel rest Hfuel _.
  destruct Hts as [|t ts [Hopen Ht] Hts].
  - change ("[" +:+ join "," [] +:+ "]") with "[]" in *.
    destruct fuel as [|fuel']; [cbn in Hfuel; lia |]. by eexists.
  - rewrite join_elements, bracket_cons in *.
    cbn [String.length] in Hfuel. rewrite length_append in Hfuel.
    destruct fuel as [|fuel']; [lia |].
    rewrite append_cons, append_assoc, parse_value_bracket.
    destruct (opens_value_inv t Hopen) as (c & r & -> & Hws & Hclose & _).
    rewrite append_cons. cbn [skip_ws]. rewrite Hws, Hclose. rewrite <- append_cons.
    destruct (Ht fuel' (elements_tail ts +:+ rest)) as [x ->];
      [lia | apply ends_number_elements |].
    cbn [mbind outcome_bind]. apply parse_elements_tail; [done | lia].
Qed.

(** *** Objects *)

Lemma members_tail_cons (m : string) (ms : list string) :
  members_tail (m :: ms) = String "," (m +:+ members_tail ms).
Proof. reflexivity. Qed.

Lemma join_members (m : string) (ms : list string) :
  join "," (m :: ms) +:+ "}" = m +:+ members_tail ms.
Proof.
  revert m. induction ms as [|m' ms IH]; intros m; [reflexivity |].
  change (join "," (m :: m' :: ms)) with (m +:+ "," +:+ join "," (m' :: ms)).
  rewrite !append_assoc. by rewrite IH.
Qed.

Lemma ends_number_members (ms : list string) (rest : string) :
  ends_number (members_tail ms +:+ rest) = true.
Proof. by destruct ms. Qed.

Lemma parse_value_brace (fuel : nat) (body : string) :
  parse_value (S fuel) (String "{" body)
  = match skip_ws body with
    | String c' rest' =>
        if Ascii.eqb c' "}" then Ok (VObj [], rest') else parse_member fuel [] body
    | EmptyString => Throw SyntaxError
    end.
Proof. reflexivity. Qed.

Lemma parse_member_quote (fuel : nat) (acc : list (string * value)) (body : string) :
  parse_member (S fuel) acc (String dquote body)
  = '(k, r) ← parse_chars body;
    match skip_ws r with
    | String colon r' =>
        if Ascii.eqb colon ":" then
          '(x, r'') ← parse_value fuel r';
          let acc' := define_prop acc k x in
          match skip_ws r'' with
          | String d r3 =>
              if Ascii.eqb d "}" then Ok (VObj acc', r3)
              else if Ascii.eqb d "," then parse_member fuel acc' r3
              else Throw SyntaxError
          | EmptyString => Throw SyntaxError
          end
        else Throw SyntaxError
    | EmptyString => Throw SyntaxError
    end.
Proof. reflexivity. Qed.

Lemma quote_cons (k : string) (rest : string) :
  quote k +:+ rest = String dquote (escape k +:+ String dquote rest).
Proof.
  unfold quote. rewrite !append_cons, append_assoc, append_cons. reflexivity.
Qed.

Lemma length_quote (k : string) : (2 ≤ String.length (quote k))%nat.
Proof.
  unfold quote. rewrite append_cons. cbn [String.length].
  rewrite length_append. cbn [String.length]. lia.
Qed.

Ltac lengths H :=
  repeat first [ rewrite length_append in H
               | progress (cbn [String.length members_tail] in H) ].

Lemma parse_member_text (ms : list string) :
  Forall member_text ms →
  ∀ m fuel acc rest, member_text m →
    (String.length (m +:+ members_tail ms) ≤ fuel)%nat →
    ∃ x, parse_member fuel acc (m +:+ members_tail ms +:+ rest) = Ok (x, rest).
Proof.
  induction 1 as [|m' ms Hm' _ IH]; intros m fuel acc rest (k & t & -> & _ & Ht) Hfuel.
  - rewrite !append_assoc, quote_cons in *. lengths Hfuel.
    destruct fuel as [|fuel']; [lia |].
    rewrite parse_member_quote, parse_chars_escape. cbn [mbind outcome_bind].
    change (":" +:+ t +:+ members_tail [] +:+ rest)
      with (String ":" (t +:+ String "}" rest)).
    cbn [skip_ws]. change (is_ws ":") with false. cbn iota.
    rewrite Ascii.eqb_refl.
    destruct (Ht fuel' (String "}" rest)) as [x ->]; [lia | reflexivity |].
    by eexists.
  - rewrite members_tail_cons in *. rewrite !append_assoc, quote_cons in *.
    lengths Hfuel.
    destruct fuel as [|fuel']; [lia |].
    rewrite parse_member_quote, parse_chars_escape. cbn [mbind outcome_bind].
    rewrite !append_cons, append_nil_l.
    cbn [skip_ws]. change (is_ws ":") with false. cbn iota.
    rewrite Ascii.eqb_refl.
    destruct (Ht fuel' (String "," ((m' +:+ members_tail ms) +:+ rest))) as [x ->];
      [lia | reflexivity |].
    cbn [mbind outcome_bind].
    cbn [skip_ws]. change (is_ws ",") with false. cbn iota zeta.
    rewrite Ascii.eqb_refl.
    replace (Ascii.eqb "," "}") with false by reflexivity.
    rewrite append_assoc. apply IH; [done | rewrite length_append; lia].
Qed.

Lemma brace_cons (body : string) : "{" +:+ body = String "{" body.
Proof. reflexivity. Qed.

Lemma value_text_object (ms : list string) :
  Forall member_text ms → value_text ("{" +:+ join "," ms +:+ "}").
Proof.
  intros Hms. split; [reflexivity |]. intros fuel rest Hfuel _.
  destruct Hms as [|m ms Hm Hms].
  - change ("{" +:+ join "," [] +:+ "}") with "{}" in *.
    destruct fuel as [|fuel']; [cbn in Hfuel; lia |]. by eexists.
  - rewrite join_members, brace_cons in *.
    cbn [String.length] in Hfuel.
    destruct fuel as [|fuel']; [lia |].
    rewrite append_cons, parse_value_brace.
    destruct Hm as (k & t & Hm & Ht).
    assert (Hskip : ∃ r, skip_ws ((m +:+ members_tail ms) +:+ rest) = String dquote r).
    { rewrite Hm, !append_assoc, quote_cons. by eexists. }
    destruct Hskip as [r ->].
    replace (Ascii.eqb dquote "}") with false by reflexivity.
    rewrite append_assoc. apply parse_member_text; [done | by exists k, t | lia].
Qed.

(** *** Values *)

Lemma serialize_value_text (v : value) (s : string) :
  serialize v = Some s → value_text s.
Proof.
  revert s. induction v as [| |b|n|str|items IH|props IH] using value_ind'; intros s.
  - discriminate.
  - intros [= <-]. apply value_text_null.
  - intros [= <-]. destruct b; [apply value_text_true | apply value_text_false].
  - intros [= <-]. apply value_text_number.
  - intros [= <-]. apply value_text_quote.
  - cbn [serialize]. intros [= <-]. apply value_text_array.
    induction IH as [|x xs Hx _ IHxs]; constructor; [| exact IHxs].
    destruct (serialize x) as [t|] eqn:Hser; [by apply Hx | apply value_text_null].
  - cbn [serialize]. intros [= <-]. apply value_text_object.
    induction IH as [|[k x] ps Hx _ IHps]; [constructor |].
    cbn [omap list_omap snd fst]. fold (@omap list _ _ _ (λ p : string * value,
      match serialize (snd p) with
      | Some t => Some (quote (fst p) +:+ ":" +:+ t)
      | None => None
      end) ps).
    destruct (serialize x) as [t|] eqn:Hser; [| exact IHps].
    constructor; [| exact IHps]. exists k, t. split; [reflexivity |]. by apply Hx.
Qed.

Theorem JSON_parse_serialized (v : value) (s : string) :
  serialize v = Some s → ∃ x, JSON_parse (VStr s) = Ok x.
Proof.
  intros Hser. destruct (serialize_value_text v s Hser) as [_ Hparse].
  destruct (Hparse (2 + 2 * String.length s)%nat "") as [x Hx]; [lia | reflexivity |].
  rewrite append_empty_r in Hx. exists x.
  unfold JSON_parse. cbn [to_string mbind outcome_bind]. by rewrite Hx.
Qed.


(** Among the values only [undefined] has no JSON text. *)
Lemma serialize_none (v : value) : serialize v = None → v = VUndefined.
Proof. by destruct v. Qed.

(** ** The response interceptor *)

Lemma to_string_stringify (data : value) :
  to_string (JSON_stringify data) = Ok (data_line data).
Proof. unfold JSON_stringify, data_line. by destruct (serialize data). Qed.

(** The entries [checkResponse] logs first, executed. *)
Ltac run_preamble Hspec :=
  unfold res_send, checkResponse;
  run; rewrite Hspec; run; rewrite to_string_stringify; run.

Section Interceptor.

Variable validate : value → value → outcome (option (list schema_error)).
Variables (spec : value) (method url : string) (data : value) (w : world).
Variables (line : string) (section : value).

Hypothesis spec_prints : to_string spec = Ok line.
Hypothesis section_read :
  responseCodeSection spec url method (statusCode w) = Ok section.

(** The status code has no contract section: a warning, no validation,
    and the serialized payload goes out. *)
Lemma res_send_unspecified :
  loosely_undefined section = true →
  res_send validate spec method url data w
  = (Ok (),
     World (log w ++ preamble (statusCode w) line method url data
              ++ [VStr "WARNING: wrong response code"; VNum (statusCode w)])
           (statusCode w)
           (delivered w ++ [(statusCode w, JSON_stringify data)])
           (loaded w) (pending w)).
Proof.
  intros Hundef. run_preamble spec_prints.
  rewrite section_read. run. rewrite Hundef. run.
  unfold preamble. rewrite <- !app_assoc. reflexivity.
Qed.

(** The contract section has no [content] property: nothing to
    validate. *)
Lemma res_send_no_content :
  loosely_undefined section = false →
  hasOwnProperty section "content" = Ok false →
  res_send validate spec method url data w
  = (Ok (),
     World (log w ++ preamble (statusCode w) line method url data)
           (statusCode w)
           (delivered w ++ [(statusCode w, JSON_stringify data)])
           (loaded w) (pending w)).
Proof.
  intros Hdef Hcontent. run_preamble spec_prints.
  rewrite section_read. run. rewrite Hdef, Hcontent. run.
  unfold preamble. rewrite <- !app_assoc. reflexivity.
Qed.

(** The payload is parsed and the validator reaches a verdict: the
    callback is put off with it, and the serialized payload goes out. *)
Lemma res_send_validated (schema parsed : value)
    (verdict : option (list schema_error)) :
  loosely_undefined section = false →
  hasOwnProperty section "content" = Ok true →
  validSchema section = Ok schema →
  JSON_parse (JSON_stringify data) = Ok parsed →
  validate parsed schema = Ok verdict →
  res_send validate spec method url data w
  = (Ok (),
     World (log w ++ preamble (statusCode w) line method url data
              ++ [VStr "schema to use for validation"; schema])
           (statusCode w)
           (delivered w ++ [(statusCode w, JSON_stringify data)])
           (loaded w)
           (pending w ++ [(verdict, parsed)])).
Proof.
  intros Hdef Hcontent Hschema Hparse Hverdict. run_preamble spec_prints.
  rewrite section_read. run. rewrite Hdef, Hcontent. run.
  rewrite Hschema. run. rewrite Hparse. run.
  unfold validator_validate. rewrite Hverdict. run.
  unfold preamble. rewrite <- !app_assoc. reflexivity.
Qed.

(** [JSON.parse] throws: the exception leaves [res.send] before the
    validator and the transport are reached. *)
Lemma res_send_unparseable (schema : value) (e : exn) :
  loosely_undefined section = false →
  hasOwnProperty section "content" = Ok true →
  validSchema section = Ok schema →
  JSON_parse (JSON_stringify data) = Throw e →
  res_send validate spec method url data w
  = (Throw e,
     World (log w ++ preamble (statusCode w) line method url data
              ++ [VStr "schema to use for validation"; schema])
           (statusCode w) (delivered w) (loaded w) (pending w)).
Proof.
  intros Hdef Hcontent Hschema Hparse. run_preamble spec_prints.
  rewrite section_read. run. rewrite Hdef, Hcontent. run.
  rewrite Hschema. run. rewrite Hparse. run.
  unfold preamble. rewrite <- !app_assoc. reflexivity.
Qed.

(** The [content] of the section has no [application/json] entry: the
    read of its [schema] is a [TypeError]. *)
Lemma res_send_content_without_json (content : value) :
  loosely_undefined section = false →
  hasOwnProperty section "content" = Ok true →
  get_prop section "content" = Ok content →
  get_prop content "application/json" = Ok VUndefined →
  res_send validate spec method url data w
  = (Throw TypeError,
     World (log w ++ preamble (statusCode w) line method url data)
           (statusCode w) (delivered w) (loaded w) (pending w)).
Proof.
  intros Hdef Hcontent Hget Hjson. run_preamble spec_prints.
  rewrite section_read. run. rewrite Hdef, Hcontent. run.
  unfold validSchema. rewrite Hget. cbn [mbind outcome_bind].
  rewrite Hjson. cbn [mbind outcome_bind get_prop].
  unfold preamble. rewrite <- !app_assoc. reflexivity.
Qed.

End Interceptor.

(** A text the handler sends, JSON or not, is serialized to a string
    literal, parsed back to itself and judged as a string by the
    validator. *)
Lemma res_send_text_payload
    (validate : value → value → outcome (option (list schema_error)))
    (spec : value) (method url : string) (text : string) (w : world)
    (line : string) (section schema : value)
    (verdict : option (list schema_error)) :
  to_string spec = Ok line →
  responseCodeSection spec url method (statusCode w) = Ok section →
  loosely_undefined section = false →
  hasOwnProperty section "content" = Ok true →
  validSchema section = Ok schema →
  validate (VStr text) schema = Ok verdict →
  ∃ w', res_send validate spec method url (VStr text) w = (Ok (), w')
        ∧ delivered w' = delivered w ++ [(statusCode w, VStr (quote text))].
Proof.
  intros Hspec Hsec Hdef Hcontent Hschema Hverdict. eexists. split.
  - apply (res_send_validated _ _ _ _ _ _ line section Hspec Hsec schema (VStr text)
             verdict); try done.
    apply JSON_parse_stringify_string.
  - reflexivity.
Qed.

(** C2. In every validation outcome (no contract section for the status
    code, a section without content, or a payload parsed and judged by the
    validator, whatever the verdict) the replacement [res.send] returns
    normally, leaves the status code as it was and hands the transport one
    body: the JSON serialization of the value the handler passed. *)
Theorem res_send_delivers_serialized
    (validate : value → value → outcome (option (list schema_error)))
    (spec : value) (method url : string) (data : value) (w : world)
    (line : string) (section : value) :
  to_string spec = Ok line →
  responseCodeSection spec url method (statusCode w) = Ok section →
  (loosely_undefined section = true
   ∨ (loosely_undefined section = false
      ∧ hasOwnProperty section "content" = Ok false)
   ∨ (loosely_undefined section = false
      ∧ hasOwnProperty section "content" = Ok true
      ∧ ∃ schema parsed verdict,
          validSchema section = Ok schema
          ∧ JSON_parse (JSON_stringify data) = Ok parsed
          ∧ validate parsed schema = Ok verdict)) →
  ∃ w', res_send validate spec method url data w = (Ok (), w')
        ∧ statusCode w' = statusCode w
        ∧ delivered w' = delivered w ++ [(statusCode w, JSON_stringify data)].
Proof.
  intros Hspec Hsec [Hundef | [[Hdef Hnone] | (Hdef & Hsome & schema & parsed & verdict & Hs & Hp & Hv)]].
  - eexists. split; [by apply (res_send_unspecified _ _ _ _ _ _ line section) |].
    by split.
  - eexists. split; [by apply (res_send_no_content _ _ _ _ _ _ line section) |].
    by split.
  - eexists. split;
      [by apply (res_send_validated _ _ _ _ _ _ line section Hspec Hsec schema parsed verdict) |].
    by split.
Qed.

(** The pig passes validation at status 200 and leaves as JSON text. *)
Lemma res_send_delivers_serialized_witness :
  ∃ w', res_send type_validator petstore "get" "/pets" pig (fresh 200) = (Ok (), w')
        ∧ statusCode w' = 200
        ∧ delivered w' = [(200, JSON_stringify pig)].
Proof.
  apply (res_send_delivers_serialized type_validator petstore "get" "/pets" pig
           (fresh 200) "[object Object]" (VObj section_200_props));
    [reflexivity | reflexivity |].
  right; right. split; [reflexivity |]. split; [reflexivity |].
  exists pet_schema, pig, None. repeat split; reflexivity.
Defined.

(** A string payload reaches the client inside quotes: what is delivered
    differs from what the handler passed to [send]. *)
Lemma res_send_string_payload_quoted :
  let run := res_send type_validator petstore "get" "/pets" (VStr "hi") (fresh 400) in
  fst run = Ok ()
  ∧ delivered (snd run) = [(400, VStr (String dquote ("hi" +:+ String dquote "")))]
  ∧ VStr (String dquote ("hi" +:+ String dquote "")) ≠ VStr "hi".
Proof. repeat split; [reflexivity .. | discriminate]. Qed.

(** C7. When the response map of the operation has no entry for the status
    code, the replacement [res.send] logs its six informational entries,
    then the warning and the code, never calls the validator, and hands the
    transport the JSON serialization of the payload under the unchanged
    status code. *)
Theorem res_send_unlisted_status
    (validate : value → value → outcome (option (list schema_error)))
    (spec : value) (method url : string) (data : value) (w : world)
    (line : string) (d : value) (responses : list (string * value)) :
  to_string spec = Ok line →
  operation spec url method = Ok d →
  get_prop d "responses" = Ok (VObj responses) →
  own responses (Number_toString (statusCode w)) = None →
  res_send validate spec method url data w
  = (Ok (),
     World (log w ++ preamble (statusCode w) line method url data
              ++ [VStr "WARNING: wrong response code"; VNum (statusCode w)])
           (statusCode w)
           (delivered w ++ [(statusCode w, JSON_stringify data)])
           (loaded w) (pending w)).
Proof.
  intros Hspec Hop Hres Hown.
  apply (res_send_unspecified _ _ _ _ _ _ line VUndefined); [done | | done].
  by apply (responseCodeSection_absent spec url method d responses).
Qed.

(** Status 418 is not in the response map of [GET /pets]. *)
Lemma res_send_unlisted_status_witness :
  res_send type_validator petstore "get" "/pets" pig (fresh 418)
  = (Ok (),
     World (preamble 418 "[object Object]" "get" "/pets" pig
              ++ [VStr "WARNING: wrong response code"; VNum 418])
           418 [(418, JSON_stringify pig)] ∅ []).
Proof.
  apply (res_send_unlisted_status type_validator petstore "get" "/pets" pig
           (fresh 418) "[object Object]" pets_get pets_responses);
    reflexivity.
Defined.

(** The teapot's text is delivered in quotes, not unchanged. *)
Lemma res_send_teapot_quoted :
  let run := res_send type_validator petstore "get" "/pets" (VStr "teapot") (fresh 418) in
  fst run = Ok ()
  ∧ delivered (snd run) = [(418, VStr (String dquote ("teapot" +:+ String dquote "")))]
  ∧ VStr (String dquote ("teapot" +:+ String dquote "")) ≠ VStr "teapot".
Proof. repeat split; [reflexivity .. | discriminate]. Qed.

(** C5. When [JSON.parse] throws on the serialized payload and the status
    code has a contract section with a JSON schema, the exception leaves
    the replacement [res.send]: the log gains the informational entries
    and the schema, no warning; the validator is not called, so no callback
    is put off; and the transport receives nothing. *)
Theorem res_send_parse_failure
    (validate : value → value → outcome (option (list schema_error)))
    (spec : value) (method url : string) (data : value) (w : world)
    (line : string) (section schema : value) (e : exn) :
  to_string spec = Ok line →
  responseCodeSection spec url method (statusCode w) = Ok section →
  loosely_undefined section = false →
  hasOwnProperty section "content" = Ok true →
  validSchema section = Ok schema →
  JSON_parse (JSON_stringify data) = Throw e →
  ∃ w', res_send validate spec method url data w = (Throw e, w')
        ∧ log w' = log w ++ preamble (statusCode w) line method url data
                     ++ [VStr "schema to use for validation"; schema]
        ∧ pending w' = pending w
        ∧ delivered w' = delivered w.
Proof.
  intros Hspec Hsec Hdef Hcontent Hschema Hparse. eexists.
  split; [by apply (res_send_unparseable _ _ _ _ _ _ line section Hspec Hsec schema e) |].
  by repeat split.
Qed.

(** A handler that calls [res.send(undefined)] with status 200: the
    payload has no JSON text, [JSON.parse] throws a [SyntaxError], and the
    client gets nothing. *)
Lemma res_send_parse_failure_witness :
  JSON_parse (JSON_stringify VUndefined) = Throw SyntaxError
  ∧ ∃ w', res_send type_validator petstore "get" "/pets" VUndefined (fresh 200)
          = (Throw SyntaxError, w')
          ∧ log w' = preamble 200 "[object Object]" "get" "/pets" VUndefined
                       ++ [VStr "schema to use for validation"; pet_schema]
          ∧ pending w' = []
          ∧ delivered w' = [].
Proof.
  split; [reflexivity |].
  apply (res_send_parse_failure type_validator petstore "get" "/pets" VUndefined
           (fresh 200) "[object Object]" (VObj section_200_props) pet_schema SyntaxError);
    reflexivity.
Defined.

(** No entry of that log is a warning. *)
Lemma res_send_undefined_payload_raises :
  let run := res_send type_validator petstore "get" "/pets" VUndefined (fresh 200) in
  fst run = Throw SyntaxError
  ∧ existsb is_warning (log (snd run)) = false
  ∧ delivered (snd run) = [].
Proof. repeat split; reflexivity. Qed.

(** C4. When the contract section of the status code has a [content]
    property without an [application/json] entry, reading that entry's
    [schema] raises a [TypeError] out of the replacement [res.send], and the
    transport receives nothing. *)
Theorem res_send_content_lacks_json
    (validate : value → value → outcome (option (list schema_error)))
    (spec : value) (method url : string) (data : value) (w : world)
    (line : string) (props cprops : list (string * value)) :
  to_string spec = Ok line →
  responseCodeSection spec url method (statusCode w) = Ok (VObj props) →
  own props "hasOwnProperty" = None →
  own props "content" = Some (VObj cprops) →
  own cprops "application/json" = None →
  ∃ w', res_send validate spec method url data w = (Throw TypeError, w')
        ∧ delivered w' = delivered w.
Proof.
  intros Hspec Hsec Hhas Hcontent Hjson. eexists. split.
  - apply (res_send_content_without_json _ _ _ _ _ _ line (VObj props) Hspec Hsec
             (VObj cprops)).
    + reflexivity.
    + unfold hasOwnProperty. by rewrite Hhas, Hcontent.
    + unfold get_prop. by rewrite Hcontent.
    + unfold get_prop. by rewrite Hjson.
  - reflexivity.
Qed.

(** Status 404 of [GET /pets] declares only [text/plain]. *)
Lemma res_send_content_lacks_json_witness :
  ∃ w', res_send type_validator petstore "get" "/pets" (VStr "no such pet") (fresh 404)
        = (Throw TypeError, w')
        ∧ delivered w' = [].
Proof.
  apply (res_send_content_lacks_json type_validator petstore "get" "/pets"
           (VStr "no such pet") (fresh 404) "[object Object]"
           section_404_props text_content_props);
    reflexivity.
Defined.

(** ** Loading modules *)

Section Loading.

Variable path_join : string → string → string.
Variable disk : string → outcome module_value.

Lemma require_cached (file : string) (m : module_value) (w : world) :
  loaded w !! file = Some m → require disk file w = (Ok m, w).
Proof. intros H. unfold require. by rewrite H. Qed.

Lemma require_throws (file : string) (e : exn) (w : world) :
  loaded w !! file = None → disk file = Throw e →
  require disk file w = (Throw e, w).
Proof. intros Hc Hd. unfold require. by rewrite Hc, Hd. Qed.

(** What [require] answers is what the cache held or the disk gave. *)
Lemma require_result (file : string) (m : module_value) (w w' : world) :
  require disk file w = (Ok m, w') →
  loaded w !! file = Some m ∨ (loaded w !! file = None ∧ disk file = Ok m).
Proof.
  unfold require. destruct (loaded w !! file) as [m'|] eqn:Hc.
  - intros [= -> ->]. by left.
  - destruct (disk file) as [m'| |] eqn:Hd; intros [= <- <-] || intros [=].
    by right.
Qed.

Lemma require_settled (file : string) : settled (require disk file).
Proof.
  intros w. unfold require at 2 3.
  destruct (loaded w !! file) as [m|] eqn:Hc; cbn [snd].
  - unfold require. by rewrite Hc.
  - destruct (disk file) as [m| |] eqn:Hd; cbn [snd].
    + unfold require. cbn [loaded]. by rewrite lookup_insert_eq.
    + unfold require. by rewrite Hc, Hd.
    + unfold require. by rewrite Hc, Hd.
Qed.

Lemma stateless_lift {A : Type} (o : outcome A) : stateless (lift o).
Proof. by exists o. Qed.

Lemma stateless_ret {A : Type} (a : A) : stateless (mret a : M A).
Proof. by exists (Ok a). Qed.

Lemma stateless_bind {A B : Type} (m : M A) (k : A → M B) :
  stateless m → (∀ a, stateless (k a)) → stateless (m ≫= k).
Proof.
  intros [o Hm] Hk. destruct o as [a| e |].
  - destruct (Hk a) as [o' Hka]. exists o'. intros w.
    cbv [mbind M_bind]. by rewrite Hm, Hka.
  - exists (Throw e). intros w. cbv [mbind M_bind]. by rewrite Hm.
  - exists Unmodelled. intros w. cbv [mbind M_bind]. by rewrite Hm.
Qed.

Lemma stateless_settled {A : Type} (m : M A) : stateless m → settled m.
Proof. intros [o Hm] w. by rewrite !Hm. Qed.

Lemma settled_bind {A B : Type} (m : M A) (k : A → M B) :
  settled m → (∀ a, stateless (k a)) → settled (m ≫= k).
Proof.
  intros Hm Hk w. cbv [mbind M_bind].
  specialize (Hm w). destruct (m w) as [[a| e |] w1] eqn:Hw; cbn [snd] in Hm.
  - destruct (Hk a) as [o Hka]. rewrite !Hka. cbn [snd]. by rewrite Hm, Hka.
  - cbn [snd]. by rewrite Hm.
  - cbn [snd]. by rewrite Hm.
Qed.

Lemma existsController_settled (loc name : string) :
  settled (existsController path_join disk loc name).
Proof.
  apply settled_bind; [apply require_settled |].
  intros m. destruct (module_undefined m); apply stateless_ret.
Qed.

Lemma controllerName_settled (controllers : string) (spec : value) (url method : string) :
  settled (controllerName path_join disk controllers spec url method).
Proof.
  unfold controllerName.
  destruct (operation spec url method) as [d| e |] eqn:Hop;
    [| apply stateless_settled; eexists; intros w; reflexivity .. ].
  destruct (hasOwnProperty d "x-router-controller") as [[]| e |] eqn:Hover;
    try (apply stateless_settled; eexists; intros w; run; rewrite ?Hover; reflexivity).
  destruct (generateName (VStr url)) as [name| e |] eqn:Hname;
    try (apply stateless_settled; eexists; intros w; run; rewrite ?Hover; reflexivity).
  intros w. run. rewrite Hover. run.
  pose proof (existsController_settled controllers name w) as Hs.
  destruct (existsController path_join disk controllers name w) as [[[]| e |] w1] eqn:Hw;
    cbn [snd] in Hs |- *; by rewrite Hs.
Qed.

(** C9. Resolving the same path and method again, from the world the
    first resolution left and with the same specification and the same
    files on disk, completes the same way (the same pair of controller name
    and operation identifier, or the same exception) and changes nothing
    more. *)
Theorem resolve_twice (controllers : string) (spec : value)
    (requestedUlr req_method : string) (w : world) :
  resolve path_join disk controllers spec requestedUlr req_method
    (snd (resolve path_join disk controllers spec requestedUlr req_method w))
  = resolve path_join disk controllers spec requestedUlr req_method w.
Proof.
  revert w. change (settled (resolve path_join disk controllers spec requestedUlr req_method)).
  unfold resolve. apply settled_bind; [apply controllerName_settled |].
  intros name. apply stateless_bind; [apply stateless_lift |].
  intros opID. apply stateless_ret.
Qed.

(** Without an override the controller name hangs on the existence check
    of the conventional module. *)
Lemma controllerName_conventional (controllers : string) (spec : value)
    (url method : string) (props : list (string * value)) (name : string) (w : world) :
  operation spec url method = Ok (VObj props) →
  own props "hasOwnProperty" = None →
  own props "x-router-controller" = None →
  generateName (VStr url) = Ok name →
  controllerName path_join disk controllers spec url method w
  = (found ← existsController path_join disk controllers name;
     mret (VStr (if found : bool then name else "Defualt"))) w.
Proof.
  intros Hop Hhas Hover Hname. unfold controllerName. rewrite Hop. run.
  rewrite (hasOwnProperty_absent props _ Hhas Hover), Hname. run.
  destruct (existsController path_join disk controllers name w) as [[[]| e |] w1];
    reflexivity.
Qed.

(** A conventional module that loads to an object of operations gives
    its name to the controller. *)
Lemma controllerName_loadable (controllers : string) (spec : value)
    (url method : string) (props : list (string * value)) (name : string)
    (operations : list string) (w w' : world) :
  operation spec url method = Ok (VObj props) →
  own props "hasOwnProperty" = None →
  own props "x-router-controller" = None →
  generateName (VStr url) = Ok name →
  require disk (path_join controllers name) w = (Ok (ModExports operations), w') →
  controllerName path_join disk controllers spec url method w = (Ok (VStr name), w').
Proof.
  intros Hop Hhas Hover Hname Hload.
  rewrite (controllerName_conventional controllers spec url method props name w
             Hop Hhas Hover Hname).
  unfold existsController. run. by rewrite Hload.
Qed.

Lemma existsController_throws (loc name : string) (e : exn) (w : world) :
  loaded w !! path_join loc name = None →
  disk (path_join loc name) = Throw e →
  existsController path_join disk loc name w = (Throw e, w).
Proof.
  intros Hc Hd. unfold existsController. run.
  by rewrite (require_throws _ e w Hc Hd).
Qed.

Lemma nullish_when_false (loc name : string) (w w' : world) :
  existsController path_join disk loc name w = (Ok false, w') →
  ∃ m, require disk (path_join loc name) w = (Ok m, w')
       ∧ (m = ModUndefined ∨ m = ModNull).
Proof.
  unfold existsController. run.
  destruct (require disk (path_join loc name) w) as [[m| e |] w1]; [| done ..].
  destruct m; cbn [module_undefined]; intros [= <-]; eauto.
Qed.

Lemma generateName_not_default (url name : string) :
  generateName (VStr url) = Ok name → name ≠ "Defualt".
Proof.
  rewrite generateName_string. intros [= <-] Heq.
  apply (f_equal String.length) in Heq. rewrite length_append in Heq.
  cbn [String.length] in Heq. lia.
Qed.

(** C6. When the Operation Descriptor has an [x-router-controller] property
    of its own, its value is the controller name, unchanged, whatever
    [path.join] and the controllers directory are; the cache of loaded
    modules is not touched, and resolution pairs that name with the
    operation identifier. *)
Theorem resolve_override (controllers : string) (spec : value)
    (url req_method : string) (props : list (string * value)) (v : value) (w : world) :
  operation spec url (toLowerCase req_method) = Ok (VObj props) →
  own props "hasOwnProperty" = None →
  own props "x-router-controller" = Some v →
  controllerName path_join disk controllers spec url (toLowerCase req_method) w
  = (Ok v, w)
  ∧ resolve path_join disk controllers spec url req_method w
    = (opID ← generateOpId spec url (toLowerCase req_method); Ok (v, opID), w).
Proof.
  intros Hop Hhas Hover.
  assert (Hname : controllerName path_join disk controllers spec url
                    (toLowerCase req_method) w = (Ok v, w)).
  { unfold controllerName. rewrite Hop. run.
    rewrite (hasOwnProperty_present props _ v Hhas Hover).
    unfold get_prop. by rewrite Hover. }
  split; [exact Hname |].
  unfold resolve. cbv [mbind M_bind]. rewrite Hname. run.
  by destruct (generateOpId spec url (toLowerCase req_method)).
Qed.

(** C3. Without an override, when the conventional module is not in the
    cache and cannot be loaded, the exception of [require] leaves
    resolution: the default name is not returned. *)
Theorem resolve_missing_module (controllers : string) (spec : value)
    (url req_method : string) (props : list (string * value)) (name : string)
    (e : exn) (w : world) :
  operation spec url (toLowerCase req_method) = Ok (VObj props) →
  own props "hasOwnProperty" = None →
  own props "x-router-controller" = None →
  generateName (VStr url) = Ok name →
  loaded w !! path_join controllers name = None →
  disk (path_join controllers name) = Throw e →
  resolve path_join disk controllers spec url req_method w = (Throw e, w).
Proof.
  intros Hop Hhas Hover Hname Hc Hd. unfold resolve. cbv [mbind M_bind].
  rewrite (controllerName_conventional controllers spec url _ props name w Hop Hhas Hover Hname).
  cbv [mbind M_bind]. by rewrite (existsController_throws controllers name e w Hc Hd).
Qed.

(** C10. The existence check answers [false] only for a module that loads
    to [undefined] or to [null]; a module that is not cached and cannot be
    loaded makes the check, and with it the choice of the controller name,
    raise the exception of [require]; and without an override the default
    name is reached only through a module that loaded to [undefined] or
    [null]. *)
Theorem existsController_false_only_nullish (loc name : string) (w : world) :
  (∀ w', existsController path_join disk loc name w = (Ok false, w') →
         ∃ m, require disk (path_join loc name) w = (Ok m, w')
              ∧ (m = ModUndefined ∨ m = ModNull))
  ∧ (∀ e, loaded w !! path_join loc name = None →
          disk (path_join loc name) = Throw e →
          existsController path_join disk loc name w = (Throw e, w))
  ∧ (∀ spec url method props,
       operation spec url method = Ok (VObj props) →
       own props "hasOwnProperty" = None →
       own props "x-router-controller" = None →
       generateName (VStr url) = Ok name →
       (∀ e, loaded w !! path_join loc name = None →
             disk (path_join loc name) = Throw e →
             controllerName path_join disk loc spec url method w = (Throw e, w))
       ∧ (∀ w', controllerName path_join disk loc spec url method w
                = (Ok (VStr "Defualt"), w') →
                ∃ m, require disk (path_join loc name) w = (Ok m, w')
                     ∧ (m = ModUndefined ∨ m = ModNull))).
Proof.
  split; [intros w'; apply nullish_when_false |].
  split; [intros e; apply existsController_throws |].
  intros spec url method props Hop Hhas Hover Hname.
  rewrite (controllerName_conventional loc spec url method props name w Hop Hhas Hover Hname).
  cbv [mbind M_bind]. split.
  - intros e Hc Hd. by rewrite (existsController_throws loc name e w Hc Hd).
  - intros w'.
    destruct (existsController path_join disk loc name w) as [[[]| e |] w1] eqn:Hw;
      run; [| | done ..].
    + intros [= Heq Hw1]. by apply generateName_not_default in Hname.
    + intros [= <-]. by apply nullish_when_false.
Qed.

End Loading.

(** [POST /pets] names its controller, while the conventional
    [petsControllers] is on disk as well. *)
Lemma resolve_override_witness :
  pet_disk "/app/controllers/petsControllers" = Ok (ModExports ["listpets"; "createpets"])
  ∧ controllerName join_paths pet_disk controllers_root petstore "/pets"
      (toLowerCase "POST") (fresh 200)
    = (Ok (VStr "storeController"), fresh 200)
  ∧ resolve join_paths pet_disk controllers_root petstore "/pets" "POST" (fresh 200)
    = (Ok (VStr "storeController", "addPet"), fresh 200).
Proof.
  split; [reflexivity |].
  apply (resolve_override join_paths pet_disk controllers_root petstore "/pets" "POST"
           pets_post_props (VStr "storeController") (fresh 200));
    reflexivity.
Defined.

(** [GET /owners] has no override and no [ownersControllers] file. *)
Lemma resolve_missing_module_witness :
  resolve join_paths pet_disk controllers_root petstore "/owners" "GET" (fresh 200)
  = (Throw (LoadError "/app/controllers/ownersControllers"), fresh 200).
Proof.
  apply (resolve_missing_module join_paths pet_disk controllers_root petstore
           "/owners" "GET" pets_get_props "ownersControllers");
    reflexivity.
Defined.

(** [bonesControllers] exports [null]: the check answers [false] although
    the module did not load to [undefined]. *)
Lemma existsController_false_for_null :
  fst (existsController join_paths pet_disk controllers_root "bonesControllers" (fresh 200))
  = Ok false
  ∧ fst (require pet_disk (join_paths controllers_root "bonesControllers") (fresh 200))
    = Ok ModNull
  ∧ ModNull ≠ ModUndefined.
Proof. repeat split; [vm_compute; reflexivity .. | discriminate]. Qed.

(** [toysControllers] exports [undefined]: the check answers [false], and
    the module is in the cache afterwards. *)
Lemma existsController_false_only_nullish_witness :
  ∃ m, require pet_disk (join_paths controllers_root "toysControllers") (fresh 200)
       = (Ok m, World [] 200 [] (<["/app/controllers/toysControllers" := ModUndefined]> ∅) [])
       ∧ (m = ModUndefined ∨ m = ModNull).
Proof.
  apply (proj1 (existsController_false_only_nullish join_paths pet_disk
                  controllers_root "toysControllers" (fresh 200))).
  reflexivity.
Defined.

(** * Further properties *)

(** ** Names *)

Lemma substring_tail (c : ascii) (rest : string) :
  substring (String c rest) 1 (Z.of_nat (String.length (String c rest))) = rest.
Proof.
  change 1 with (Z.of_nat 1).
  rewrite substring_from by (cbn [String.length]; lia).
  cbn [String.length Nat.sub String.substring]. rewrite Nat.sub_0_r.
  apply substring_whole.
Qed.

(** X1. [nameOfPath] removes the first character of a path, whatever that
    character is, and leaves the empty path empty. *)
Theorem nameOfPath_drops_first_character :
  (∀ c rest, nameOfPath (VStr (String c rest)) = Ok rest)
  ∧ nameOfPath (VStr "") = Ok "".
Proof.
  split; [| reflexivity]. intros c rest.
  rewrite nameOfPath_string. by rewrite substring_tail.
Qed.

(** X2. The conventional controller name of a path is the path without
    its first character followed by ["Controllers"]; it is never the
    default name. *)
Theorem generateName_conventional (c : ascii) (rest : string) :
  generateName (VStr (String c rest)) = Ok (rest +:+ "Controllers")
  ∧ rest +:+ "Controllers" ≠ "Defualt".
Proof.
  assert (H : generateName (VStr (String c rest)) = Ok (rest +:+ "Controllers")).
  { rewrite generateName_string. by rewrite substring_tail. }
  split; [exact H |]. by apply (generateName_not_default (String c rest)).
Qed.

Lemma lower_char_not_upper (c x : ascii) :
  (65 <=? N_of_ascii x)%N && (N_of_ascii x <=? 90)%N = true →
  Ascii.eqb (lower_char c) x = false.
Proof.
  destruct (Ascii.eqb_spec (lower_char c) x) as [<- | _]; [| done].
  destruct c as [[] [] [] [] [] [] [] []]; intros H; try discriminate H.
Qed.

Lemma lowered_differs (m upper : string) (x : ascii) :
  (65 <=? N_of_ascii x)%N && (N_of_ascii x <=? 90)%N = true →
  String.eqb (toLowerCase m) (String x upper) = false.
Proof.
  intros Hx. destruct m as [|c m']; [reflexivity |].
  cbn [toLowerCase String.eqb]. by rewrite lower_char_not_upper.
Qed.

(** X3. On a method name that went through [toLowerCase], as the one
    [OASRouter] holds, [nameMethod] answers ["delete"]: its table is
    written in capitals. *)
Theorem nameMethod_lowered_is_delete (req_method : string) :
  nameMethod (VStr (toLowerCase req_method)) = Ok "delete".
Proof.
  unfold nameMethod, call_toString, to_string. cbn [mbind outcome_bind].
  by rewrite !lowered_differs.
Qed.

(** ** Explicit operation identifiers *)

(** X4. An [operationId] that is a string is the identifier, verbatim,
    whatever the method and the path. *)
Theorem generateOpId_explicit_verbatim (spec : value) (url method : string)
    (props : list (string * value)) (id : string) :
  operation spec url method = Ok (VObj props) →
  own props "hasOwnProperty" = None →
  own props "operationId" = Some (VStr id) →
  generateOpId spec url method = Ok id.
Proof. apply generateOpId_explicit. Qed.

(** Below 2^53 in magnitude a number prints as its decimal numeral. *)
Lemma Number_toString_decimal (n : Z) :
  Z.abs n < 2 ^ 53 → Number_toString n = pretty n.
Proof.
  intros Hn. unfold Number_toString, nearest_double.
  destruct (Z.ltb_spec (Z.abs n) (2 ^ 53)) as [_ | Hge]; [| lia].
  by destruct (Z.ltb_spec (Z.abs n) (2 ^ 53)) as [_ | Hge]; [| lia].
Qed.

(** X5. An [operationId] that is not a string goes through [toString]: a
    number becomes the text JavaScript prints for it, which is its decimal
    numeral below 2^53 in magnitude, and [null] raises a [TypeError]. *)
Theorem generateOpId_explicit_coerced (spec : value) (url method : string)
    (props : list (string * value)) (id : value) :
  operation spec url method = Ok (VObj props) →
  own props "hasOwnProperty" = None →
  own props "operationId" = Some id →
  (∀ n, id = VNum n → generateOpId spec url method = Ok (Number_toString n))
  ∧ (∀ n, id = VNum n → Z.abs n < 2 ^ 53 →
       generateOpId spec url method = Ok (pretty n))
  ∧ (id = VNull → generateOpId spec url method = Throw TypeError).
Proof.
  intros Hop Hhas Hid.
  assert (H : generateOpId spec url method = call_toString id).
  { unfold generateOpId. rewrite Hop. cbn [mbind outcome_bind].
    rewrite (hasOwnProperty_present props _ id Hhas Hid).
    cbn [mbind outcome_bind]. unfold get_prop. by rewrite Hid. }
  split; [| split].
  - intros n ->. by rewrite H.
  - intros n -> Hn. rewrite H. cbn [call_toString to_string].
    by rewrite Number_toString_decimal.
  - intros ->. by rewrite H.
Qed.

(** ** Dispatch by name *)

Lemma split_dots_nonempty (s : string) : split_dots s ≠ [].
Proof.
  induction s as [|c s IH]; [done |]. cbn [split_dots].
  destruct (Ascii.eqb c "."); [done |]. by destruct (split_dots s).
Qed.

Lemma split_dots_dotless (s : string) : dotless s = true → split_dots s = [s].
Proof.
  induction s as [|c s IH]; [done |]. cbn [dotless split_dots].
  intros [Hc Hs]%andb_true_iff. apply negb_true_iff in Hc. rewrite Hc.
  by rewrite IH.
Qed.

Lemma split_dots_cons (ns rest : string) :
  dotless ns = true → split_dots (ns +:+ "." +:+ rest) = ns :: split_dots rest.
Proof.
  induction ns as [|c ns IH]; [done |]. cbn [dotless].
  intros [Hc Hs]%andb_true_iff. apply negb_true_iff in Hc.
  rewrite append_cons. cbn [split_dots]. rewrite Hc. by rewrite IH.
Qed.

(** One step of the descent: the first namespace is looked up, the rest
    of the name is dispatched inside it. *)
Lemma executeFunctionByName_step (ns rest : string) (context : member)
    (send : value → M unit) (w : world) :
  dotless ns = true →
  executeFunctionByName (ns +:+ "." +:+ rest) context send w
  = (inner ← lift (get_member context ns);
     executeFunctionByName rest inner send) w.
Proof.
  intros Hns. unfold executeFunctionByName. rewrite (split_dots_cons ns rest Hns).
  pose proof (split_dots_nonempty rest) as Hne.
  destruct (split_dots rest) as [|p ps]; [done |].
  change (last (ns :: p :: ps)) with (last (p :: ps)).
  change (removelast (ns :: p :: ps)) with (ns :: removelast (p :: ps)).
  cbn [descend]. cbv [mbind M_bind lift outcome_bind].
  by destruct (get_member context ns).
Qed.

Lemma executeFunctionByName_dotless (id : string) (context : member)
    (send : value → M unit) (w : world) :
  dotless id = true →
  executeFunctionByName id context send w
  = (f ← lift (get_member context id); apply_member f send) w.
Proof.
  intros Hid. unfold executeFunctionByName. rewrite (split_dots_dotless id Hid).
  reflexivity.
Qed.

(** X6. A name without dots calls the function member of that name, with
    the [send] it was given. *)
Theorem executeFunctionByName_plain (id : string) (members : list (string * member))
    (h : handler) (send : value → M unit) (w : world) :
  dotless id = true →
  own_member members id = Some (MFunction h) →
  executeFunctionByName id (MObject members) send w = h send w.
Proof.
  intros Hid Hown. rewrite executeFunctionByName_dotless by done.
  cbv [mbind M_bind lift get_member]. by rewrite Hown.
Qed.

(** X7. A dotted name descends: with the first segment naming a member,
    the call is the call of the rest of the name inside that member. *)
Theorem executeFunctionByName_descends (ns rest : string)
    (members : list (string * member)) (inner : member)
    (send : value → M unit) (w : world) :
  dotless ns = true →
  own_member members ns = Some inner →
  executeFunctionByName (ns +:+ "." +:+ rest) (MObject members) send w
  = executeFunctionByName rest inner send w.
Proof.
  intros Hns Hown. rewrite executeFunctionByName_step by done.
  cbv [mbind M_bind lift get_member]. by rewrite Hown.
Qed.

(** X8. A name without dots that names no function (no member of that
    name, a data member, or an object without a function called [apply])
    raises a [TypeError] and leaves the world as it was. *)
Theorem executeFunctionByName_not_a_function (id : string)
    (members : list (string * member)) (send : value → M unit) (w : world) :
  dotless id = true →
  (own_member members id = None ∧ inherited id = false)
  ∨ (∃ v, own_member members id = Some (MData v))
  ∨ (∃ inner, own_member members id = Some (MObject inner)
              ∧ own_member inner "apply" = None) →
  executeFunctionByName id (MObject members) send w = (Throw TypeError, w).
Proof.
  intros Hid H. rewrite executeFunctionByName_dotless by done.
  cbv [mbind M_bind lift get_member].
  destruct H as [[-> ->] | [[v ->] | (inner & -> & Happly)]]; [done | done |].
  cbn [apply_member]. by rewrite Happly.
Qed.

Lemma executeFunctionByName_undefined (name : string) (send : value → M unit)
    (w : world) :
  executeFunctionByName name (MData VUndefined) send w = (Throw TypeError, w).
Proof.
  unfold executeFunctionByName.
  pose proof (split_dots_nonempty name) as Hne.
  destruct (split_dots name) as [|p ps]; [done |].
  destruct ps as [|q qs]; reflexivity.
Qed.

(** X9. A dotted name whose first segment names nothing raises a
    [TypeError], whatever follows the dot, and leaves the world as it
    was. *)
Theorem executeFunctionByName_missing_namespace (ns rest : string)
    (members : list (string * member)) (send : value → M unit) (w : world) :
  dotless ns = true →
  own_member members ns = None →
  inherited ns = false →
  executeFunctionByName (ns +:+ "." +:+ rest) (MObject members) send w
  = (Throw TypeError, w).
Proof.
  intros Hns Hown Hinh. rewrite executeFunctionByName_step by done.
  cbv [mbind M_bind lift get_member]. rewrite Hown, Hinh.
  apply executeFunctionByName_undefined.
Qed.

(** ** What the interceptor leaves alone *)

Ltac split_cases :=
  repeat (match goal with
          | |- context [match ?x with _ => _ end] =>
              lazymatch x with
              | context [match _ with _ => _ end] => fail
              | _ => destruct x
              end
          end; run).

Ltac log_extended :=
  cbn [fst snd log statusCode delivered loaded pending];
  repeat split; try reflexivity;
  try (exists []; by rewrite app_nil_r);
  try (eexists; rewrite <- ?app_assoc; reflexivity).

Section Frames.

Variable validate : value → value → outcome (option (list schema_error)).

Lemma checkResponse_frame (code : Z) (spec : value) (method url : string)
    (data : list value) (w : world) :
  let w' := snd (checkResponse validate code spec method url data w) in
  statusCode w' = statusCode w
  ∧ delivered w' = delivered w
  ∧ loaded w' = loaded w
  ∧ (∃ entries, log w' = log w ++ entries)
  ∧ ∃ calls, pending w' = pending w ++ calls.
Proof.
  unfold checkResponse. generalize (nth 0 data VUndefined). intros d.
  cbv [validator_validate]. run. split_cases; log_extended.
Qed.

(** X10. [checkResponse] only writes to the log: whatever its arguments
    and however it completes, the status code, the deliveries and the
    loaded modules are as before, and the log has only grown; the only
    other trace it leaves is the call of its callback that the validator
    puts off. *)
Theorem checkResponse_only_logs (code : Z) (spec : value) (method url : string)
    (data : list value) (w : world) :
  let w' := snd (checkResponse validate code spec method url data w) in
  statusCode w' = statusCode w
  ∧ delivered w' = delivered w
  ∧ loaded w' = loaded w
  ∧ (∃ entries, log w' = log w ++ entries)
  ∧ ∃ calls, pending w' = pending w ++ calls.
Proof. apply checkResponse_frame. Qed.

(** X11. The replacement [res.send] never changes the status code or the
    loaded modules and only adds to the log and to the callbacks put off;
    the transport is called once, with the serialized payload under the
    current status code, exactly when the call returns normally, and not
    at all when it raises. *)
Theorem res_send_delivers_iff_returns (spec : value) (method url : string)
    (data : value) (w : world) :
  let r := res_send validate spec method url data w in
  statusCode (snd r) = statusCode w
  ∧ loaded (snd r) = loaded w
  ∧ (∃ entries, log (snd r) = log w ++ entries)
  ∧ delivered (snd r)
    = match fst r with
      | Ok _ => delivered w ++ [(statusCode w, JSON_stringify data)]
      | _ => delivered w
      end
  ∧ ∃ calls, pending (snd r) = pending w ++ calls.
Proof.
  pose proof (checkResponse_frame (statusCode w) spec method url
                [JSON_stringify data] w) as (Hs & Hd & Hl & [entries Hlog] & [calls Hp]).
  unfold res_send. cbv [mbind M_bind res_statusCode].
  destruct (checkResponse validate (statusCode w) spec method url
              [JSON_stringify data] w) as [[[]| e |] w1];
    cbn [fst snd] in *; cbv [oldSend nth];
    cbn [fst snd log statusCode delivered loaded pending];
    rewrite ?Hs, ?Hd; eauto 10.
Qed.

End Frames.

(** ** Edge cases of the interceptor *)

(** X12. A descriptor without a [responses] map makes the replacement
    [res.send] raise a [TypeError] after its informational entries; the
    transport receives nothing. *)
Theorem res_send_without_responses
    (validate : value → value → outcome (option (list schema_error)))
    (spec : value) (method url : string) (data : value) (w : world)
    (line : string) (props : list (string * value)) :
  to_string spec = Ok line →
  operation spec url method = Ok (VObj props) →
  own props "responses" = None →
  res_send validate spec method url data w
  = (Throw TypeError,
     World (log w ++ preamble (statusCode w) line method url data)
           (statusCode w) (delivered w) (loaded w) (pending w)).
Proof.
  intros Hspec Hop Hres. run_preamble Hspec.
  unfold responseCodeSection. rewrite Hop. cbn [mbind outcome_bind get_prop].
  rewrite Hres. cbn [existsb inherited mbind outcome_bind get_prop]. run.
  unfold preamble. rewrite <- !app_assoc. reflexivity.
Qed.

(** X13. When the validator itself raises, the exception leaves the
    replacement [res.send]: the schema was logged, no warning is, and the
    transport receives nothing. *)
Theorem res_send_validator_raises
    (validate : value → value → outcome (option (list schema_error)))
    (spec : value) (method url : string) (data : value) (w : world)
    (line : string) (section schema parsed : value) (e : exn) :
  to_string spec = Ok line →
  responseCodeSection spec url method (statusCode w) = Ok section →
  loosely_undefined section = false →
  hasOwnProperty section "content" = Ok true →
  validSchema section = Ok schema →
  JSON_parse (JSON_stringify data) = Ok parsed →
  validate parsed schema = Throw e →
  res_send validate spec method url data w
  = (Throw e,
     World (log w ++ preamble (statusCode w) line method url data
              ++ [VStr "schema to use for validation"; schema])
           (statusCode w) (delivered w) (loaded w) (pending w)).
Proof.
  intros Hspec Hsec Hdef Hcontent Hschema Hparse Hval. run_preamble Hspec.
  rewrite Hsec. run. rewrite Hdef, Hcontent. run.
  rewrite Hschema. run. rewrite Hparse. run.
  unfold validator_validate. rewrite Hval. run.
  unfold preamble. rewrite <- !app_assoc. reflexivity.
Qed.

(** X14. A response map entry that is [null] counts as no entry: the
    warning is logged, nothing is validated, and the serialized payload is
    delivered. *)
Theorem res_send_null_section
    (validate : value → value → outcome (option (list schema_error)))
    (spec : value) (method url : string) (data : value) (w : world)
    (line : string) (d : value) (responses : list (string * value)) :
  to_string spec = Ok line →
  operation spec url method = Ok d →
  get_prop d "responses" = Ok (VObj responses) →
  own responses (Number_toString (statusCode w)) = Some VNull →
  res_send validate spec method url data w
  = (Ok (),
     World (log w ++ preamble (statusCode w) line method url data
              ++ [VStr "WARNING: wrong response code"; VNum (statusCode w)])
           (statusCode w)
           (delivered w ++ [(statusCode w, JSON_stringify data)])
           (loaded w) (pending w)).
Proof.
  intros Hspec Hop Hres Hown.
  apply (res_send_unspecified validate spec method url data w line VNull);
    [done | | done].
  unfold responseCodeSection. rewrite Hop. cbn [mbind outcome_bind]. rewrite Hres.
  cbn [mbind outcome_bind get_prop]. by rewrite Hown.
Qed.


Lemma processErr_join (err : list schema_error) :
  processErr err = join ". " (map message err).
Proof.
  destruct err as [|e rest]; [reflexivity |].
  unfold processErr. rewrite processErr_loop_separated, append_nil_l.
  rewrite separated_join. apply substring_after_separator.
Qed.

(** X16. On a schema mismatch the replacement [res.send] returns with the
    payload sent and no warning in the log, which ends with the schema: the
    validator has put the callback off.  On the next tick the callback
    appends one warning, whose text is the fixed prefix followed by the
    messages of all errors joined by [". "], and the parsed payload. *)
Theorem res_send_mismatch_logged
    (validate : value → value → outcome (option (list schema_error)))
    (spec : value) (method url : string) (data : value) (w : world)
    (line : string) (section schema parsed : value) (err : list schema_error) :
  to_string spec = Ok line →
  responseCodeSection spec url method (statusCode w) = Ok section →
  loosely_undefined section = false →
  hasOwnProperty section "content" = Ok true →
  validSchema section = Ok schema →
  JSON_parse (JSON_stringify data) = Ok parsed →
  validate parsed schema = Ok (Some err) →
  pending w = [] →
  ∃ w', res_send validate spec method url data w = (Ok (), w')
        ∧ log w' = log w ++ preamble (statusCode w) line method url data
                     ++ [VStr "schema to use for validation"; schema]
        ∧ delivered w' = delivered w ++ [(statusCode w, JSON_stringify data)]
        ∧ ∃ w'', next_tick w' = (Ok (), w'')
                 ∧ log w'' = log w'
                               ++ [VStr ("WARNING: wrong data in the response. "
                                         +:+ join ". " (map message err));
                                   parsed]
                 ∧ delivered w'' = delivered w'
                 ∧ pending w'' = [].
Proof.
  intros Hspec Hsec Hdef Hcontent Hschema Hparse Hval Hpending. eexists. split.
  - by apply (res_send_validated validate spec method url data w line section Hspec
                Hsec schema parsed (Some err)).
  - cbn [log delivered]. split; [reflexivity |]. split; [reflexivity |].
    unfold next_tick. cbn [log statusCode delivered loaded pending].
    rewrite Hpending. cbn [app run_callbacks validation_callback]. run.
    eexists. split; [reflexivity |]. cbn [log delivered pending].
    rewrite processErr_join, <- !app_assoc. done.
Qed.

(** ** [processErr] on concatenated lists *)

Lemma separated_app (a b : list schema_error) :
  separated (a ++ b) = separated a +:+ separated b.
Proof.
  induction a as [|e a IH]; [reflexivity |].
  cbn [app separated]. rewrite IH. by rewrite !append_assoc.
Qed.

Lemma separated_processErr (e : schema_error) (rest : list schema_error) :
  separated (e :: rest) = ". " +:+ processErr (e :: rest).
Proof. by rewrite processErr_join, separated_join. Qed.

(** X17. The text for two lists of errors put together is the text of the
    first, the separator, and the text of the second. *)
Theorem processErr_app (a b : list schema_error) :
  a ≠ [] → b ≠ [] →
  processErr (a ++ b) = processErr a +:+ ". " +:+ processErr b.
Proof.
  destruct a as [|e a]; [done |]. destruct b as [|e' b]; [done |]. intros _ _.
  unfold processErr at 1. rewrite processErr_loop_separated, append_nil_l.
  rewrite separated_app, !separated_processErr.
  rewrite !append_assoc.
  change (". " +:+ processErr (e :: a) +:+ ". " +:+ processErr (e' :: b))
    with (". " +:+ (processErr (e :: a) +:+ ". " +:+ processErr (e' :: b))).
  apply substring_after_separator.
Qed.

(** ** Resolution: edge cases and what it leaves alone *)

Section Resolution.

Variable path_join : string → string → string.
Variable disk : string → outcome module_value.

Lemma resolve_run (controllers : string) (spec : value) (url req_method : string)
    (name : value) (w w1 : world) :
  controllerName path_join disk controllers spec url (toLowerCase req_method) w
  = (Ok name, w1) →
  resolve path_join disk controllers spec url req_method w
  = (opID ← generateOpId spec url (toLowerCase req_method); Ok (name, opID), w1).
Proof.
  intros Hname. unfold resolve. cbv [mbind M_bind]. rewrite Hname. run.
  by destruct (generateOpId spec url (toLowerCase req_method)).
Qed.

Lemma controllerName_chosen (controllers : string) (spec : value)
    (url method : string) (props : list (string * value)) (v : value) (w : world) :
  operation spec url method = Ok (VObj props) →
  own props "hasOwnProperty" = None →
  own props "x-router-controller" = Some v →
  controllerName path_join disk controllers spec url method w = (Ok v, w).
Proof.
  intros Hop Hhas Hover. unfold controllerName. rewrite Hop. run.
  rewrite (hasOwnProperty_present props _ v Hhas Hover).
  unfold get_prop. by rewrite Hover.
Qed.

(** X18. Resolving a path that the specification does not list, or a
    method that its path does not list, raises a [TypeError] before any
    module is looked for: the world is as it was. *)
Theorem resolve_unknown_operation (controllers : string) (spec : value)
    (url req_method : string) (paths : list (string * value)) (w : world) :
  get_prop spec "paths" = Ok (VObj paths) →
  (own paths url = None ∧ inherited url = false)
  ∨ (∃ methods, own paths url = Some (VObj methods)
                ∧ own methods (toLowerCase req_method) = None
                ∧ inherited (toLowerCase req_method) = false) →
  resolve path_join disk controllers spec url req_method w = (Throw TypeError, w).
Proof.
  intros Hpaths H. unfold resolve, controllerName, operation.
  rewrite Hpaths. cbn [mbind outcome_bind get_prop].
  destruct H as [[-> ->] | (methods & -> & Hm & Hinh)]; [reflexivity |].
  cbn [mbind outcome_bind get_prop]. by rewrite Hm, Hinh.
Qed.

Lemma require_frame (file : string) (w : world) :
  let w' := snd (require disk file w) in
  log w' = log w ∧ statusCode w' = statusCode w ∧ delivered w' = delivered w
  ∧ loaded w ⊆ loaded w' ∧ pending w' = pending w.
Proof.
  unfold require. destruct (loaded w !! file) as [m|] eqn:Hc; [done |].
  destruct (disk file) as [m| e |]; cbn [snd log statusCode delivered loaded pending];
    repeat split; try done.
  by apply insert_subseteq.
Qed.

(** X19. Resolution writes nothing to the log, sends nothing, leaves the
    status code alone and puts no callback off; modules are only ever
    added to the loaded ones. *)
Theorem resolve_only_loads (controllers : string) (spec : value)
    (url req_method : string) (w : world) :
  let w' := snd (resolve path_join disk controllers spec url req_method w) in
  log w' = log w ∧ statusCode w' = statusCode w ∧ delivered w' = delivered w
  ∧ loaded w ⊆ loaded w' ∧ pending w' = pending w.
Proof.
  unfold resolve, controllerName, existsController.
  set (method := toLowerCase req_method). run.
  destruct (operation spec url method) as [d| e |]; run; [| done ..].
  destruct (hasOwnProperty d "x-router-controller") as [[]| e |]; run; [| | done ..].
  - destruct (get_prop d "x-router-controller"); run; [| done ..].
    by destruct (generateOpId spec url method).
  - destruct (generateName (VStr url)) as [name| e |]; run; [| done ..].
    pose proof (require_frame (path_join controllers name) w) as Hframe.
    destruct (require disk (path_join controllers name) w) as [[m| e |] w1];
      cbn [snd] in Hframe; run; [| done ..].
    destruct (module_undefined m); run;
      by destruct (generateOpId spec url method).
Qed.

End Resolution.

(** ** The request handler *)

Lemma generateOpId_constant (spec : value) (url method : string)
    (props : list (string * value)) :
  operation spec url method = Ok (VObj props) →
  own props "hasOwnProperty" = None →
  own props "operationId" = None →
  own props "toString" = None →
  own props "length" = None →
  generateOpId spec url method = Ok "deleteobject Object]".
Proof.
  intros Hop Hhas Hid Ht Hl. unfold generateOpId. rewrite Hop.
  cbn [mbind outcome_bind]. rewrite (hasOwnProperty_absent props _ Hhas Hid).
  cbn [mbind outcome_bind].
  by rewrite nameMethod_descriptor, nameOfPath_descriptor.
Qed.

Section Handling.

Variable path_join : string → string → string.
Variable disk : string → outcome module_value.
Variable validate : value → value → outcome (option (list schema_error)).
Variable body : string → string → handler.

Lemma own_member_exported (file id : string) (operations : list string) :
  id ∈ operations →
  own_member (map (fun name => (name, MFunction (body file name))) operations) id
  = Some (MFunction (body file id)).
Proof.
  induction operations as [|name ops IH]; [by intros ?%elem_of_nil |].
  cbn [map own_member]. destruct (String.eqb_spec name id) as [-> | Hne]; [done |].
  intros [? | ?]%elem_of_cons; [congruence | by apply IH].
Qed.

Lemma own_member_not_exported (file id : string) (operations : list string) :
  id ∉ operations →
  own_member (map (fun name => (name, MFunction (body file name))) operations) id = None.
Proof.
  induction operations as [|name ops IH]; [done |].
  cbn [map own_member]. intros [Hne Hrest]%not_elem_of_cons.
  destruct (String.eqb_spec name id) as [-> | _]; [done | by apply IH].
Qed.

(** After resolution the router loads the controller and dispatches. *)
Lemma OASRouter_resolved (controllers : string) (spec : value)
    (url req_method name opID : string) (w w1 : world) :
  resolve path_join disk controllers spec url req_method w
  = (Ok (VStr name, opID), w1) →
  OASRouter path_join disk validate body controllers spec url req_method w
  = (controller ← require disk (path_join controllers name);
     executeFunctionByName opID (exports body (path_join controllers name) controller)
       (res_send validate spec (toLowerCase req_method) url)) w1.
Proof.
  intros Hres. unfold OASRouter. cbv [mbind M_bind]. rewrite Hres.
  cbn [controller_file lift]. reflexivity.
Qed.

(** X20. When resolution gives a controller name and an identifier
    without dots, and the controller loads to an object that exports a
    function under that identifier, the router runs that function, from the
    world the loading left, with the replacement [res.send] as its
    [send]. *)
Theorem OASRouter_runs_handler (controllers : string) (spec : value)
    (url req_method name opID : string) (operations : list string)
    (w w1 w2 : world) :
  resolve path_join disk controllers spec url req_method w
  = (Ok (VStr name, opID), w1) →
  require disk (path_join controllers name) w1 = (Ok (ModExports operations), w2) →
  dotless opID = true →
  opID ∈ operations →
  OASRouter path_join disk validate body controllers spec url req_method w
  = body (path_join controllers name) opID
      (res_send validate spec (toLowerCase req_method) url) w2.
Proof.
  intros Hres Hload Hdot Hin. rewrite (OASRouter_resolved _ _ _ _ _ _ _ _ Hres).
  cbv [mbind M_bind]. rewrite Hload. cbn [exports].
  rewrite executeFunctionByName_dotless by done.
  cbv [mbind M_bind lift get_member]. by rewrite own_member_exported.
Qed.

(** X21. When the loaded controller exports nothing under the identifier,
    and the identifier is not the name of a member that every object
    inherits (such as [toString]), the router raises a [TypeError]: no
    function runs, nothing is logged and nothing is sent. *)
Theorem OASRouter_unknown_operation (controllers : string) (spec : value)
    (url req_method name opID : string) (operations : list string)
    (w w1 w2 : world) :
  resolve path_join disk controllers spec url req_method w
  = (Ok (VStr name, opID), w1) →
  require disk (path_join controllers name) w1 = (Ok (ModExports operations), w2) →
  dotless opID = true →
  opID ∉ operations →
  inherited opID = false →
  OASRouter path_join disk validate body controllers spec url req_method w
  = (Throw TypeError, w2).
Proof.
  intros Hres Hload Hdot Hin Hinh. rewrite (OASRouter_resolved _ _ _ _ _ _ _ _ Hres).
  cbv [mbind M_bind]. rewrite Hload. cbn [exports].
  rewrite executeFunctionByName_dotless by done.
  cbv [mbind M_bind lift get_member].
  by rewrite own_member_not_exported, Hinh.
Qed.

(** X22. For an operation without an [operationId] the router looks for a
    member called ["deleteobject Object]"]: unless the controller exports
    one, the request ends in a [TypeError] and no function runs. *)
Theorem OASRouter_synthesized_id_fails (controllers : string) (spec : value)
    (url req_method name : string) (props : list (string * value))
    (operations : list string) (w w1 w2 : world) :
  operation spec url (toLowerCase req_method) = Ok (VObj props) →
  own props "hasOwnProperty" = None →
  own props "operationId" = None →
  own props "toString" = None →
  own props "length" = None →
  controllerName path_join disk controllers spec url (toLowerCase req_method) w
  = (Ok (VStr name), w1) →
  require disk (path_join controllers name) w1 = (Ok (ModExports operations), w2) →
  "deleteobject Object]" ∉ operations →
  OASRouter path_join disk validate body controllers spec url req_method w
  = (Throw TypeError, w2).
Proof.
  intros Hop Hhas Hid Ht Hl Hname Hload Hin.
  assert (Hres : resolve path_join disk controllers spec url req_method w
                 = (Ok (VStr name, "deleteobject Object]"), w1)).
  { rewrite (resolve_run _ _ _ _ _ _ _ _ _ Hname).
    by rewrite (generateOpId_constant spec url _ props). }
  rewrite (OASRouter_resolved _ _ _ _ _ _ _ _ Hres).
  cbv [mbind M_bind]. rewrite Hload. cbn [exports].
  rewrite executeFunctionByName_dotless by done.
  cbv [mbind M_bind lift get_member].
  by rewrite own_member_not_exported.
Qed.

(** X23. When the descriptor names a controller that is neither loaded nor
    loadable, the router raises the exception of [require]: the existence
    of the named module is not checked beforehand, and the world is as it
    was. *)
Theorem OASRouter_named_controller_missing (controllers : string) (spec : value)
    (url req_method name opID : string) (props : list (string * value))
    (e : exn) (w : world) :
  operation spec url (toLowerCase req_method) = Ok (VObj props) →
  own props "hasOwnProperty" = None →
  own props "x-router-controller" = Some (VStr name) →
  generateOpId spec url (toLowerCase req_method) = Ok opID →
  loaded w !! path_join controllers name = None →
  disk (path_join controllers name) = Throw e →
  OASRouter path_join disk validate body controllers spec url req_method w
  = (Throw e, w).
Proof.
  intros Hop Hhas Hover Hid Hc Hd.
  assert (Hres : resolve path_join disk controllers spec url req_method w
                 = (Ok (VStr name, opID), w)).
  { rewrite (resolve_run _ _ _ _ _ _ (VStr name) w w).
    - by rewrite Hid.
    - by apply (controllerName_chosen _ _ _ _ _ _ props). }
  rewrite (OASRouter_resolved _ _ _ _ _ _ _ _ Hres).
  cbv [mbind M_bind]. by rewrite (require_throws disk _ e w Hc Hd).
Qed.

(** X24. An [x-router-controller] that is not a string makes the router
    raise a [TypeError] when it builds the file name: no module is loaded
    and the world is as it was. *)
Theorem OASRouter_controller_not_a_string (controllers : string) (spec : value)
    (url req_method opID : string) (props : list (string * value)) (v : value)
    (w : world) :
  operation spec url (toLowerCase req_method) = Ok (VObj props) →
  own props "hasOwnProperty" = None →
  own props "x-router-controller" = Some v →
  (∀ name, v ≠ VStr name) →
  generateOpId spec url (toLowerCase req_method) = Ok opID →
  OASRouter path_join disk validate body controllers spec url req_method w
  = (Throw TypeError, w).
Proof.
  intros Hop Hhas Hover Hv Hid. unfold OASRouter. cbv [mbind M_bind].
  rewrite (resolve_run _ _ _ _ _ _ v w w)
    by (by apply (controllerName_chosen _ _ _ _ _ _ props)).
  rewrite Hid. cbn [mbind outcome_bind]. cbv [lift].
  destruct v; try reflexivity. by destruct (Hv s).
Qed.

(** X25. Without an override, when the conventional module loads to
    [undefined] or [null], the router turns to the file named ["Defualt"]
    in the controllers directory and dispatches the identifier there. *)
Theorem OASRouter_default_controller (controllers : string) (spec : value)
    (url req_method name opID : string) (props : list (string * value))
    (m : module_value) (operations : list string) (w w1 w2 : world) :
  operation spec url (toLowerCase req_method) = Ok (VObj props) →
  own props "hasOwnProperty" = None →
  own props "x-router-controller" = None →
  generateName (VStr url) = Ok name →
  require disk (path_join controllers name) w = (Ok m, w1) →
  module_undefined m = true →
  generateOpId spec url (toLowerCase req_method) = Ok opID →
  require disk (path_join controllers "Defualt") w1 = (Ok (ModExports operations), w2) →
  dotless opID = true →
  opID ∈ operations →
  OASRouter path_join disk validate body controllers spec url req_method w
  = body (path_join controllers "Defualt") opID
      (res_send validate spec (toLowerCase req_method) url) w2.
Proof.
  intros Hop Hhas Hover Hname Hload Hm Hid Hdefault Hdot Hin.
  assert (Hres : resolve path_join disk controllers spec url req_method w
                 = (Ok (VStr "Defualt", opID), w1)).
  { rewrite (resolve_run _ _ _ _ _ _ (VStr "Defualt") w w1); [by rewrite Hid |].
    rewrite (controllerName_conventional path_join disk controllers spec url _ props
               name w Hop Hhas Hover Hname).
    unfold existsController. cbv [mbind M_bind]. rewrite Hload, Hm. reflexivity. }
  rewrite (OASRouter_resolved _ _ _ _ _ _ _ _ Hres).
  cbv [mbind M_bind]. rewrite Hdefault. cbn [exports].
  rewrite executeFunctionByName_dotless by done.
  cbv [mbind M_bind lift get_member]. by rewrite own_member_exported.
Qed.

Lemma executeFunctionByName_nullish (name : string) (m : module_value)
    (file : string) (send : value → M unit) (w : world) :
  module_undefined m = true →
  executeFunctionByName name (exports body file m) send w = (Throw TypeError, w).
Proof.
  intros Hm. unfold executeFunctionByName.
  pose proof (split_dots_nonempty name) as Hne.
  destruct (split_dots name) as [|p ps]; [done |].
  destruct m; [| | done]; destruct ps as [|q qs]; reflexivity.
Qed.

(** X26. A controller that loads to [undefined] or [null] (one named by the
    descriptor, whose existence is not checked) makes dispatch raise a
    [TypeError], whatever the identifier. *)
Theorem OASRouter_empty_controller (controllers : string) (spec : value)
    (url req_method name opID : string) (m : module_value) (w w1 w2 : world) :
  resolve path_join disk controllers spec url req_method w
  = (Ok (VStr name, opID), w1) →
  require disk (path_join controllers name) w1 = (Ok m, w2) →
  module_undefined m = true →
  OASRouter path_join disk validate body controllers spec url req_method w
  = (Throw TypeError, w2).
Proof.
  intros Hres Hload Hm. rewrite (OASRouter_resolved _ _ _ _ _ _ _ _ Hres).
  cbv [mbind M_bind]. rewrite Hload. by apply executeFunctionByName_nullish.
Qed.

(** X27. Without an override, a conventional module that loads to an
    object of operations gives the controller its name, and is among the
    loaded modules afterwards. *)
Theorem controllerName_conventional_module (controllers : string) (spec : value)
    (url method : string) (props : list (string * value)) (name : string)
    (operations : list string) (w w' : world) :
  operation spec url method = Ok (VObj props) →
  own props "hasOwnProperty" = None →
  own props "x-router-controller" = None →
  generateName (VStr url) = Ok name →
  require disk (path_join controllers name) w = (Ok (ModExports operations), w') →
  controllerName path_join disk controllers spec url method w = (Ok (VStr name), w')
  ∧ loaded w' !! path_join controllers name = Some (ModExports operations).
Proof.
  intros Hop Hhas Hover Hname Hload. split.
  - by apply (controllerName_loadable path_join disk controllers spec url method props
                name operations).
  - destruct (require_result disk _ _ _ _ Hload) as [Hc | [Hc Hd]].
    + unfold require in Hload. rewrite Hc in Hload. by injection Hload as <-.
    + unfold require in Hload. rewrite Hc, Hd in Hload. injection Hload as <-.
      cbn [loaded]. apply lookup_insert_eq.
Qed.

End Handling.

(** ** The further properties on the samples *)

(** The identifier [42] becomes ["42"], the identifier [10^21] becomes
    ["1e+21"], and the identifier [null] raises. *)
Lemma generateOpId_explicit_coerced_witness :
  generateOpId kennel "/odd" "post" = Ok "42"
  ∧ generateOpId kennel "/odd" "patch" = Ok "1e+21"
  ∧ generateOpId kennel "/odd" "put" = Throw TypeError.
Proof.
  split; [| split].
  - apply (proj1 (proj2 (generateOpId_explicit_coerced kennel "/odd" "post" odd_post_props
                           (VNum 42) eq_refl eq_refl eq_refl)) 42);
      [reflexivity | vm_compute; reflexivity].
  - apply (proj1 (generateOpId_explicit_coerced kennel "/odd" "patch" odd_patch_props
                    (VNum 1000000000000000000000) eq_refl eq_refl eq_refl)
             1000000000000000000000).
    reflexivity.
  - apply (proj2 (proj2 (generateOpId_explicit_coerced kennel "/odd" "put" odd_put_props
                           VNull eq_refl eq_refl eq_refl))).
    reflexivity.
Defined.

(** ["ping"] names a function of the nested controller: it runs. *)
Lemma executeFunctionByName_plain_witness :
  executeFunctionByName "ping" nested_controller plain_send (fresh 200)
  = (Ok (), World [] 418 [(418, VStr "teapot")] ∅ []).
Proof.
  apply (executeFunctionByName_plain "ping" nested_members teapot plain_send (fresh 200));
    reflexivity.
Defined.

(** ["pets.list"] is ["list"] inside the member ["pets"]. *)
Lemma executeFunctionByName_descends_witness :
  executeFunctionByName "pets.list" nested_controller plain_send (fresh 200)
  = executeFunctionByName "list" (MObject pets_members) plain_send (fresh 200).
Proof.
  apply (executeFunctionByName_descends "pets" "list" nested_members
           (MObject pets_members) plain_send (fresh 200));
    reflexivity.
Defined.

(** An object member, a data member and a missing member: none can be
    called. *)
Lemma executeFunctionByName_not_a_function_witness :
  executeFunctionByName "pets" nested_controller plain_send (fresh 200)
  = (Throw TypeError, fresh 200)
  ∧ executeFunctionByName "version" (MObject pets_members) plain_send (fresh 200)
    = (Throw TypeError, fresh 200)
  ∧ executeFunctionByName "pong" nested_controller plain_send (fresh 200)
    = (Throw TypeError, fresh 200).
Proof.
  split; [| split].
  - apply (executeFunctionByName_not_a_function "pets" nested_members plain_send
             (fresh 200)); [reflexivity |].
    right; right. exists pets_members. split; reflexivity.
  - apply (executeFunctionByName_not_a_function "version" pets_members plain_send
             (fresh 200)); [reflexivity |].
    right; left. exists (VNum 2). reflexivity.
  - apply (executeFunctionByName_not_a_function "pong" nested_members plain_send
             (fresh 200)); [reflexivity |].
    left. split; reflexivity.
Defined.

(** The nested controller has no member ["cats"]. *)
Lemma executeFunctionByName_missing_namespace_witness :
  executeFunctionByName "cats.list" nested_controller plain_send (fresh 200)
  = (Throw TypeError, fresh 200).
Proof.
  apply (executeFunctionByName_missing_namespace "cats" "list" nested_members
           plain_send (fresh 200));
    reflexivity.
Defined.

(** The operation of [/bare] has no [responses] map. *)
Lemma res_send_without_responses_witness :
  res_send type_validator kennel "get" "/bare" pig (fresh 200)
  = (Throw TypeError,
     World (preamble 200 "[object Object]" "get" "/bare" pig) 200 [] ∅ []).
Proof.
  apply (res_send_without_responses type_validator kennel "get" "/bare" pig (fresh 200)
           "[object Object]" bare_props);
    reflexivity.
Defined.

(** The section of [/loose] has no schema, which the sample validator
    refuses. *)
Lemma res_send_validator_raises_witness :
  res_send type_validator kennel "get" "/loose" pig (fresh 200)
  = (Throw ValidatorError,
     World (preamble 200 "[object Object]" "get" "/loose" pig
              ++ [VStr "schema to use for validation"; VUndefined])
           200 [] ∅ []).
Proof.
  apply (res_send_validator_raises type_validator kennel "get" "/loose" pig (fresh 200)
           "[object Object]" (VObj loose_section_props) VUndefined pig ValidatorError);
    reflexivity.
Defined.


(** A string sent where the schema wants an array: the warning comes
    after the response. *)
Lemma res_send_mismatch_logged_witness :
  ∃ w', res_send type_validator petstore "get" "/pets" (VStr "hi") (fresh 200) = (Ok (), w')
        ∧ log w' = preamble 200 "[object Object]" "get" "/pets" (VStr "hi")
                     ++ [VStr "schema to use for validation"; pet_schema]
        ∧ delivered w' = [(200, JSON_stringify (VStr "hi"))]
        ∧ ∃ w'', next_tick w' = (Ok (), w'')
                 ∧ log w'' = log w'
                               ++ [VStr "WARNING: wrong data in the response. Expected type array but found type string";
                                   VStr "hi"]
                 ∧ delivered w'' = delivered w'
                 ∧ pending w'' = [].
Proof.
  apply (res_send_mismatch_logged type_validator petstore "get" "/pets" (VStr "hi")
           (fresh 200) "[object Object]" (VObj section_200_props) pet_schema (VStr "hi")
           [SchemaError "INVALID_TYPE" "Expected type array but found type string" "#/"]);
    reflexivity.
Defined.

(** Two lists of one error each. *)
Lemma processErr_app_witness :
  processErr ([SchemaError "A" "first" "#/"] ++ [SchemaError "B" "second" "#/"])
  = "first. second".
Proof.
  apply (processErr_app [SchemaError "A" "first" "#/"] [SchemaError "B" "second" "#/"]);
    discriminate.
Defined.

(** [/cats] is not a path of the pet store; [/toys] has no [patch]. *)
Lemma resolve_unknown_operation_witness :
  resolve join_paths pet_disk controllers_root petstore "/cats" "GET" (fresh 200)
  = (Throw TypeError, fresh 200)
  ∧ resolve join_paths pet_disk controllers_root petstore "/toys" "PATCH" (fresh 200)
    = (Throw TypeError, fresh 200).
Proof.
  split.
  - apply (resolve_unknown_operation join_paths pet_disk controllers_root petstore
             "/cats" "GET"
             [("/pets", VObj [("get", pets_get); ("post", pets_post)]);
              ("/toys", VObj [("get", pets_get)]);
              ("/bones", VObj [("get", pets_get)]);
              ("/owners", VObj [("get", pets_get)])] (fresh 200));
      [reflexivity |].
    left. split; reflexivity.
  - apply (resolve_unknown_operation join_paths pet_disk controllers_root petstore
             "/toys" "PATCH"
             [("/pets", VObj [("get", pets_get); ("post", pets_post)]);
              ("/toys", VObj [("get", pets_get)]);
              ("/bones", VObj [("get", pets_get)]);
              ("/owners", VObj [("get", pets_get)])] (fresh 200));
      [reflexivity |].
    right. exists [("get", pets_get)]. repeat split; reflexivity.
Defined.

(** [POST /pets] runs [addPet] of [storeController]. *)
Lemma OASRouter_runs_handler_witness :
  OASRouter join_paths store_disk type_validator pet_bodies controllers_root petstore
    "/pets" "POST" (fresh 201)
  = teapot (res_send type_validator petstore "post" "/pets")
      (having "/app/controllers/storeController" (ModExports ["addPet"; "removePet"]) 201).
Proof.
  apply (OASRouter_runs_handler join_paths store_disk type_validator pet_bodies
           controllers_root petstore "/pets" "POST" "storeController" "addPet"
           ["addPet"; "removePet"] (fresh 201) (fresh 201));
    try reflexivity.
  by apply (bool_decide_unpack _).
Defined.

(** [storeController] exports no [feedPet]. *)
Lemma OASRouter_unknown_operation_witness :
  OASRouter join_paths store_disk type_validator pet_bodies controllers_root kennel
    "/feed" "GET" (fresh 200)
  = (Throw TypeError,
     having "/app/controllers/storeController" (ModExports ["addPet"; "removePet"]) 200).
Proof.
  apply (OASRouter_unknown_operation join_paths store_disk type_validator pet_bodies
           controllers_root kennel "/feed" "GET" "storeController" "feedPet"
           ["addPet"; "removePet"] (fresh 200) (fresh 200));
    try reflexivity.
  by apply (bool_decide_unpack _).
Defined.

(** [GET /pets] has no [operationId]; [petsControllers] exports
    [listpets], which is not what the router looks for. *)
Lemma OASRouter_synthesized_id_fails_witness :
  OASRouter join_paths store_disk type_validator pet_bodies controllers_root petstore
    "/pets" "GET" (fresh 200)
  = (Throw TypeError,
     having "/app/controllers/petsControllers" (ModExports ["listpets"; "createpets"]) 200).
Proof.
  apply (OASRouter_synthesized_id_fails join_paths store_disk type_validator pet_bodies
           controllers_root petstore "/pets" "GET" "petsControllers" pets_get_props
           ["listpets"; "createpets"] (fresh 200)
           (having "/app/controllers/petsControllers"
              (ModExports ["listpets"; "createpets"]) 200));
    try reflexivity.
  by apply (bool_decide_unpack _).
Defined.

(** There is no [ghostController] in the controllers directory. *)
Lemma OASRouter_named_controller_missing_witness :
  OASRouter join_paths store_disk type_validator pet_bodies controllers_root kennel
    "/ghost" "GET" (fresh 200)
  = (Throw (LoadError "/app/controllers/ghostController"), fresh 200).
Proof.
  apply (OASRouter_named_controller_missing join_paths store_disk type_validator
           pet_bodies controllers_root kennel "/ghost" "GET" "ghostController" "haunt"
           ghost_props);
    reflexivity.
Defined.

(** The operation names its controller [7]. *)
Lemma OASRouter_controller_not_a_string_witness :
  OASRouter join_paths store_disk type_validator pet_bodies controllers_root kennel
    "/odd" "GET" (fresh 200)
  = (Throw TypeError, fresh 200).
Proof.
  apply (OASRouter_controller_not_a_string join_paths store_disk type_validator
           pet_bodies controllers_root kennel "/odd" "GET" "list" odd_get_props (VNum 7));
    try reflexivity.
  discriminate.
Defined.

(** [toysControllers] exports [undefined]: [listToys] of [Defualt] runs. *)
Lemma OASRouter_default_controller_witness :
  OASRouter join_paths store_disk type_validator pet_bodies controllers_root kennel
    "/toys" "GET" (fresh 200)
  = teapot (res_send type_validator kennel "get" "/toys")
      (World [] 200 []
         (<["/app/controllers/Defualt" := ModExports ["listToys"]]>
            (<["/app/controllers/toysControllers" := ModUndefined]> ∅)) []).
Proof.
  apply (OASRouter_default_controller join_paths store_disk type_validator pet_bodies
           controllers_root kennel "/toys" "GET" "toysControllers" "listToys" toys_props
           ModUndefined ["listToys"] (fresh 200)
           (having "/app/controllers/toysControllers" ModUndefined 200));
    try reflexivity.
  by apply (bool_decide_unpack _).
Defined.

(** [POST /pets] declares [addPet]. *)
Lemma generateOpId_explicit_verbatim_witness :
  generateOpId petstore "/pets" "post" = Ok "addPet".
Proof.
  apply (generateOpId_explicit_verbatim petstore "/pets" "post" pets_post_props "addPet");
    reflexivity.
Defined.

(** The entry of [/loose] for status 204 is [null]. *)
Lemma res_send_null_section_witness :
  res_send type_validator kennel "get" "/loose" pig (fresh 204)
  = (Ok (),
     World (preamble 204 "[object Object]" "get" "/loose" pig
              ++ [VStr "WARNING: wrong response code"; VNum 204])
           204 [(204, JSON_stringify pig)] ∅ []).
Proof.
  apply (res_send_null_section type_validator kennel "get" "/loose" pig (fresh 204)
           "[object Object]" (VObj loose_props) loose_responses);
    reflexivity.
Defined.

(** [/bones] names [bonesControllers], which exports [null]. *)
Lemma OASRouter_empty_controller_witness :
  OASRouter join_paths store_disk type_validator pet_bodies controllers_root kennel
    "/bones" "GET" (fresh 200)
  = (Throw TypeError, having "/app/controllers/bonesControllers" ModNull 200).
Proof.
  apply (OASRouter_empty_controller join_paths store_disk type_validator pet_bodies
           controllers_root kennel "/bones" "GET" "bonesControllers" "gnaw" ModNull
           (fresh 200) (fresh 200));
    reflexivity.
Defined.

(** [petsControllers] loads to an object: it is the controller of [/pets]. *)
Lemma controllerName_conventional_module_witness :
  controllerName join_paths pet_disk controllers_root petstore "/pets" "get" (fresh 200)
  = (Ok (VStr "petsControllers"),
     having "/app/controllers/petsControllers" (ModExports ["listpets"; "createpets"]) 200)
  ∧ loaded (having "/app/controllers/petsControllers"
              (ModExports ["listpets"; "createpets"]) 200)
      !! join_paths controllers_root "petsControllers"
    = Some (ModExports ["listpets"; "createpets"]).
Proof.
  apply (controllerName_conventional_module join_paths pet_disk controllers_root petstore
           "/pets" "get" pets_get_props "petsControllers" ["listpets"; "createpets"]
           (fresh 200));
    reflexivity.
Defined.
